(** * Feder-Masse-Kette: a mass-spring chain driven by a controller

    A shallow embedding of [src/Feder-Masse-Kette.py].  Python [float]s are
    IEEE-754 binary64 numbers and are modelled by Rocq's primitive floats, so
    every arithmetic step below rounds exactly as the program does.  Python
    [int]s that only count or index are [nat] (or [Z] where an index may be
    negative).  The instance the program mutates ([self]) is a record that
    is passed through every method. *)

From Stdlib Require Import List Arith ZArith Lia Bool.
From Stdlib Require Import Floats Uint63.
Import ListNotations.

Set Implicit Arguments.
Set Warnings "-inexact-float".

(** ** Numbers *)

Module Num.

(** A pair of floats: [pymunk.Vec2d], or a Python 2-tuple used as one. *)
Definition Vec2d : Set := (float * float)%type.

(** [float(i)] for a small non-negative Python int. *)
Definition float_of_nat (i : nat) : float :=
  PrimFloat.of_uint63 (Uint63.of_Z (Z.of_nat i)).

(** Python's [max(a, b)]: the first argument is kept unless the second
    compares strictly greater. *)
Definition py_max (a b : float) : float :=
  if PrimFloat.ltb a b then b else a.

(** Python's [min(a, b)]: the first argument is kept unless the second
    compares strictly smaller. *)
Definition py_min (a b : float) : float :=
  if PrimFloat.ltb b a then b else a.

(** [a >= b] on Python floats. *)
Definition py_ge (a b : float) : bool := PrimFloat.leb b a.

Definition vadd (p q : Vec2d) : Vec2d :=
  (fst p + fst q, snd p + snd q)%float.
Definition vsub (p q : Vec2d) : Vec2d :=
  (fst p - fst q, snd p - snd q)%float.
Definition vscale (k : float) (p : Vec2d) : Vec2d :=
  (k * fst p, k * snd p)%float.
Definition vdot (p q : Vec2d) : float :=
  (fst p * fst q + snd p * snd q)%float.
Definition vlen (p : Vec2d) : float := PrimFloat.sqrt (vdot p p).
Definition vzero : Vec2d := (0, 0)%float.

End Num.
Import Num.

(** ** Module-level configuration (lines 28-58 of the source) *)

Definition N_MASSES : nat := 150.
Definition MASS_KG : float := 0.05.
Definition L0_M : float := 0.1.
Definition LV_M : float := 0.12.
Definition PIXELS_PER_METER : float := 50.0.
Definition SPRING_STIFFNESS : float := 1200.0.
Definition SPRING_DAMPING : float := 8.0.
Definition GRAVITY : Vec2d := (0.0, 0.0)%float.
Definition SPACE_DAMPING : float := 1.0.
Definition IMPULSE_TIME_S : float := 0.25.
Definition ANCHOR_LIFT_M : float := 0.5.
Definition WIDTH : nat := 1200.
Definition HEIGHT : nat := 600.
Definition FPS_LIMIT : nat := 60.
Definition MASS_RADIUS_PX : nat := 2.

Definition m_to_px (x_m : float) : float := (x_m * PIXELS_PER_METER)%float.

(** ** Exceptions

    The only exception the modelled methods can raise is [IndexError], from a
    list subscript.  [PyResult] is the error monad that threads it. *)

Inductive PyResult (A : Type) : Type :=
| Ok (a : A)
| IndexError.
Arguments IndexError {A}.

Definition bind {A B : Type} (m : PyResult A) (k : A -> PyResult B)
  : PyResult B :=
  match m with
  | Ok a => k a
  | IndexError => IndexError
  end.

Declare Scope py_scope.
Delimit Scope py_scope with py.
Notation "x <- m ;; k" := (bind m (fun x => k))
  (at level 61, m at next level, right associativity) : py_scope.
Open Scope py_scope.

(** ** Objects of the physics library that the program creates *)

Inductive BodyType : Set := DYNAMIC | KINEMATIC | STATIC.

(** A [pymunk.Body], with the attributes the program sets or reads.  A new
    body is at the origin and at rest. *)
Record Body : Set := mkBody {
  body_type : BodyType;
  mass : float;
  position : Vec2d;
  velocity : Vec2d
}.

Definition new_body (t : BodyType) (m : float) : Body :=
  mkBody t m vzero vzero.

Definition with_position (p : Vec2d) (b : Body) : Body :=
  mkBody (body_type b) (mass b) p (velocity b).

(** Object identity.  The program holds three kinds of body objects: the
    one bound to [self.left_anchor], the space's [static_body], and the
    elements of the list [self.bodies]; an element is identified by its
    index, the list being only appended to between two rebuilds. *)
Inductive BodyRef : Set :=
| LeftAnchorRef
| StaticBodyRef
| MassRef (i : nat).

(** [pymunk.Segment] and [pymunk.Circle]; colour, elasticity and friction
    are attributes of display and collision only. *)
Inductive Shape : Set :=
| Segment (body : BodyRef) (a b : Vec2d) (radius : float)
| Circle (body : BodyRef) (radius : float).

(** [pymunk.DampedSpring(a, b, anchor_a, anchor_b, rest_length, stiffness,
    damping)]. *)
Record DampedSpring : Set := mkSpring {
  spring_a : BodyRef;
  spring_b : BodyRef;
  anchor_a : Vec2d;
  anchor_b : Vec2d;
  rest_length : float;
  stiffness : float;
  spring_damping : float
}.

(** A [pymunk.Space]: its settings, its own static body, and what has been
    added to it. *)
Record Space : Set := mkSpace {
  gravity : Vec2d;
  space_damping : float;
  static_body : Body;
  space_bodies : list BodyRef;
  space_shapes : list Shape;
  space_constraints : list DampedSpring
}.

(** [pymunk.Space()]. *)
Definition new_space : Space :=
  mkSpace vzero 1.0 (new_body STATIC 0) [] [] [].

Definition space_with_gravity (g : Vec2d) (sp : Space) : Space :=
  mkSpace g (space_damping sp) (static_body sp) (space_bodies sp)
          (space_shapes sp) (space_constraints sp).

Definition space_with_damping (d : float) (sp : Space) : Space :=
  mkSpace (gravity sp) d (static_body sp) (space_bodies sp)
          (space_shapes sp) (space_constraints sp).

(** [space.add(...)] for bodies, shapes and constraints. *)
Definition space_add (bs : list BodyRef) (shs : list Shape)
    (cs : list DampedSpring) (sp : Space) : Space :=
  mkSpace (gravity sp) (space_damping sp) (static_body sp)
          (space_bodies sp ++ bs) (space_shapes sp ++ shs)
          (space_constraints sp ++ cs).

(** ** The application object

    The attributes of a [MassSpringChain] that hold simulation state; the
    screen, clock, font and draw options are display only.  [self.bodies]
    holds the body objects themselves, [self.left_anchor] the kinematic
    anchor, and the space's static body lives in [space]. *)

Record App : Set := mkApp {
  space : Space;
  gravity_index : nat;
  damping : float;
  impulse_time_s : float;
  anchor_lift_m : float;
  dt : float;
  physics_steps_per_frame : nat;
  bodies : list Body;
  shapes : list Shape;
  springs : list DampedSpring;
  left_anchor : Body;
  left_anchor_base : Vec2d;
  right_anchor : BodyRef;
  right_anchor_pos : Vec2d;
  wall_shape : Shape;
  running : bool;
  time_accum : float;
  impulse_applied : bool
}.

Definition with_space (v : Space) (self : App) : App :=
  mkApp v (gravity_index self) (damping self) (impulse_time_s self)
        (anchor_lift_m self) (dt self) (physics_steps_per_frame self)
        (bodies self) (shapes self) (springs self) (left_anchor self)
        (left_anchor_base self) (right_anchor self) (right_anchor_pos self)
        (wall_shape self) (running self) (time_accum self)
        (impulse_applied self).

Definition with_gravity_index (v : nat) (self : App) : App :=
  mkApp (space self) v (damping self) (impulse_time_s self)
        (anchor_lift_m self) (dt self) (physics_steps_per_frame self)
        (bodies self) (shapes self) (springs self) (left_anchor self)
        (left_anchor_base self) (right_anchor self) (right_anchor_pos self)
        (wall_shape self) (running self) (time_accum self)
        (impulse_applied self).

Definition with_damping (v : float) (self : App) : App :=
  mkApp (space self) (gravity_index self) v (impulse_time_s self)
        (anchor_lift_m self) (dt self) (physics_steps_per_frame self)
        (bodies self) (shapes self) (springs self) (left_anchor self)
        (left_anchor_base self) (right_anchor self) (right_anchor_pos self)
        (wall_shape self) (running self) (time_accum self)
        (impulse_applied self).

Definition with_impulse_time_s (v : float) (self : App) : App :=
  mkApp (space self) (gravity_index self) (damping self) v
        (anchor_lift_m self) (dt self) (physics_steps_per_frame self)
        (bodies self) (shapes self) (springs self) (left_anchor self)
        (left_anchor_base self) (right_anchor self) (right_anchor_pos self)
        (wall_shape self) (running self) (time_accum self)
        (impulse_applied self).

Definition with_anchor_lift_m (v : float) (self : App) : App :=
  mkApp (space self) (gravity_index self) (damping self)
        (impulse_time_s self) v (dt self) (physics_steps_per_frame self)
        (bodies self) (shapes self) (springs self) (left_anchor self)
        (left_anchor_base self) (right_anchor self) (right_anchor_pos self)
        (wall_shape self) (running self) (time_accum self)
        (impulse_applied self).

Definition with_dt (v : float) (self : App) : App :=
  mkApp (space self) (gravity_index self) (damping self)
        (impulse_time_s self) (anchor_lift_m self) v
        (physics_steps_per_frame self) (bodies self) (shapes self)
        (springs self) (left_anchor self) (left_anchor_base self)
        (right_anchor self) (right_anchor_pos self) (wall_shape self)
        (running self) (time_accum self) (impulse_applied self).

Definition with_physics_steps_per_frame (v : nat) (self : App) : App :=
  mkApp (space self) (gravity_index self) (damping self)
        (impulse_time_s self) (anchor_lift_m self) (dt self) v (bodies self)
        (shapes self) (springs self) (left_anchor self)
        (left_anchor_base self) (right_anchor self) (right_anchor_pos self)
        (wall_shape self) (running self) (time_accum self)
        (impulse_applied self).

Definition with_bodies (v : list Body) (self : App) : App :=
  mkApp (space self) (gravity_index self) (damping self)
        (impulse_time_s self) (anchor_lift_m self) (dt self)
        (physics_steps_per_frame self) v (shapes self) (springs self)
        (left_anchor self) (left_anchor_base self) (right_anchor self)
        (right_anchor_pos self) (wall_shape self) (running self)
        (time_accum self) (impulse_applied self).

Definition with_shapes (v : list Shape) (self : App) : App :=
  mkApp (space self) (gravity_index self) (damping self)
        (impulse_time_s self) (anchor_lift_m self) (dt self)
        (physics_steps_per_frame self) (bodies self) v (springs self)
        (left_anchor self) (left_anchor_base self) (right_anchor self)
        (right_anchor_pos self) (wall_shape self) (running self)
        (time_accum self) (impulse_applied self).

Definition with_springs (v : list DampedSpring) (self : App) : App :=
  mkApp (space self) (gravity_index self) (damping self)
        (impulse_time_s self) (anchor_lift_m self) (dt self)
        (physics_steps_per_frame self) (bodies self) (shapes self) v
        (left_anchor self) (left_anchor_base self) (right_anchor self)
        (right_anchor_pos self) (wall_shape self) (running self)
        (time_accum self) (impulse_applied self).

Definition with_left_anchor (v : Body) (self : App) : App :=
  mkApp (space self) (gravity_index self) (damping self)
        (impulse_time_s self) (anchor_lift_m self) (dt self)
        (physics_steps_per_frame self) (bodies self) (shapes self)
        (springs self) v (left_anchor_base self) (right_anchor self)
        (right_anchor_pos self) (wall_shape self) (running self)
        (time_accum self) (impulse_applied self).

Definition with_left_anchor_base (v : Vec2d) (self : App) : App :=
  mkApp (space self) (gravity_index self) (damping self)
        (impulse_time_s self) (anchor_lift_m self) (dt self)
        (physics_steps_per_frame self) (bodies self) (shapes self)
        (springs self) (left_anchor self) v (right_anchor self)
        (right_anchor_pos self) (wall_shape self) (running self)
        (time_accum self) (impulse_applied self).

Definition with_right_anchor (v : BodyRef) (self : App) : App :=
  mkApp (space self) (gravity_index self) (damping self)
        (impulse_time_s self) (anchor_lift_m self) (dt self)
        (physics_steps_per_frame self) (bodies self) (shapes self)
        (springs self) (left_anchor self) (left_anchor_base self) v
        (right_anchor_pos self) (wall_shape self) (running self)
        (time_accum self) (impulse_applied self).

Definition with_right_anchor_pos (v : Vec2d) (self : App) : App :=
  mkApp (space self) (gravity_index self) (damping self)
        (impulse_time_s self) (anchor_lift_m self) (dt self)
        (physics_steps_per_frame self) (bodies self) (shapes self)
        (springs self) (left_anchor self) (left_anchor_base self)
        (right_anchor self) v (wall_shape self) (running self)
        (time_accum self) (impulse_applied self).

Definition with_wall_shape (v : Shape) (self : App) : App :=
  mkApp (space self) (gravity_index self) (damping self)
        (impulse_time_s self) (anchor_lift_m self) (dt self)
        (physics_steps_per_frame self) (bodies self) (shapes self)
        (springs self) (left_anchor self) (left_anchor_base self)
        (right_anchor self) (right_anchor_pos self) v (running self)
        (time_accum self) (impulse_applied self).

Definition with_running (v : bool) (self : App) : App :=
  mkApp (space self) (gravity_index self) (damping self)
        (impulse_time_s self) (anchor_lift_m self) (dt self)
        (physics_steps_per_frame self) (bodies self) (shapes self)
        (springs self) (left_anchor self) (left_anchor_base self)
        (right_anchor self) (right_anchor_pos self) (wall_shape self) v
        (time_accum self) (impulse_applied self).

Definition with_time_accum (v : float) (self : App) : App :=
  mkApp (space self) (gravity_index self) (damping self)
        (impulse_time_s self) (anchor_lift_m self) (dt self)
        (physics_steps_per_frame self) (bodies self) (shapes self)
        (springs self) (left_anchor self) (left_anchor_base self)
        (right_anchor self) (right_anchor_pos self) (wall_shape self)
        (running self) v (impulse_applied self).

Definition with_impulse_applied (v : bool) (self : App) : App :=
  mkApp (space self) (gravity_index self) (damping self)
        (impulse_time_s self) (anchor_lift_m self) (dt self)
        (physics_steps_per_frame self) (bodies self) (shapes self)
        (springs self) (left_anchor self) (left_anchor_base self)
        (right_anchor self) (right_anchor_pos self) (wall_shape self)
        (running self) (time_accum self) v.

(** [self.gravity_presets]: assigned once in [__init__], never again. *)
Definition gravity_presets : list Vec2d :=
  [ (0.0, 0.0)%float; (0.0, 9.81 * PIXELS_PER_METER)%float ].

(** ** List subscripts and loops *)

(** The position [l[i]] denotes, with Python's negative indices. *)
Definition subscript {A : Type} (l : list A) (i : Z) : PyResult nat :=
  let n := Z.of_nat (length l) in
  if ((0 <=? i) && (i <? n))%Z then Ok (Z.to_nat i)
  else if ((- n <=? i) && (i <? 0))%Z then Ok (Z.to_nat (n + i))
  else IndexError.

(** [l[i]] as a value. *)
Definition getitem {A : Type} (l : list A) (i : Z) : PyResult A :=
  k <- subscript l i ;;
  match nth_error l k with
  | Some a => Ok a
  | None => IndexError
  end.

(** [self.bodies[i]] as the object it denotes. *)
Definition body_at (l : list Body) (i : Z) : PyResult BodyRef :=
  k <- subscript l i ;; Ok (MassRef k).

(** [for i in range(lo, lo + n): self = body i self]. *)
Definition for_range {S : Type} (lo n : nat) (body : nat -> S -> S)
    (self : S) : S :=
  fold_left (fun acc i => body i acc) (seq lo n) self.

(** The same loop when the body may raise. *)
Definition for_range_m {S : Type} (lo n : nat)
    (body : nat -> S -> PyResult S) (self : S) : PyResult S :=
  fold_left (fun acc i => s <- acc ;; body i s) (seq lo n) (Ok self).

(** ** [_build_chain] (lines 106-184) *)

Section BuildChain.

(** The number of masses; the program fixes it to [N_MASSES]. *)
Variable n_masses : nat.

Definition rest_px : float := m_to_px L0_M.
Definition span_px : float := m_to_px LV_M.
Definition start_x : float := 100.0.
Definition baseline_y : float := (float_of_nat HEIGHT * 0.5)%float.
Definition wall_x : float :=
  (start_x + float_of_nat (n_masses + 1) * span_px)%float.

(** Lines 131-142: one turn of the loop that creates the masses. *)
Definition add_mass (i : nat) (self : App) : App :=
  let x := (start_x + float_of_nat (i + 1) * span_px)%float in
  let y := baseline_y in
  let body := with_position (x, y) (new_body DYNAMIC MASS_KG) in
  let shape :=
    Circle (MassRef (length (bodies self))) (float_of_nat MASS_RADIUS_PX) in
  with_shapes (shapes self ++ [shape])
    (with_bodies (bodies self ++ [body]) self).

(** Lines 160-170: one turn of the loop that links neighbours. *)
Definition add_inner_spring (i : nat) (self : App) : PyResult App :=
  a <- body_at (bodies self) (Z.of_nat i - 1) ;;
  b <- body_at (bodies self) (Z.of_nat i) ;;
  let s := mkSpring a b (0, 0)%float (0, 0)%float
                    rest_px SPRING_STIFFNESS SPRING_DAMPING in
  Ok (with_springs (springs self ++ [s]) self).

Definition build_chain (self : App) : PyResult App :=
  (* left anchor: a kinematic body at the base position *)
  let self := with_left_anchor (new_body KINEMATIC 0) self in
  let self := with_left_anchor_base (start_x, baseline_y) self in
  let self :=
    with_left_anchor
      (with_position (left_anchor_base self) (left_anchor self)) self in
  (* right anchor: the space's static body, the wall *)
  let self := with_right_anchor StaticBodyRef self in
  let self := with_right_anchor_pos (wall_x, baseline_y) self in
  let self :=
    with_wall_shape
      (Segment (right_anchor self) (wall_x, 40)%float
         (wall_x, float_of_nat (HEIGHT - 40)) 1.0) self in
  let self :=
    with_space (space_add [] [wall_shape self] [] (space self)) self in
  (* the masses *)
  let self := for_range 0 n_masses add_mass self in
  let self :=
    with_space
      (space_add (map MassRef (seq 0 (length (bodies self))))
         (shapes self) [] (space self)) self in
  (* 1) first spring: left anchor to first mass *)
  b0 <- body_at (bodies self) 0 ;;
  let s0 := mkSpring LeftAnchorRef b0 (0, 0)%float (0, 0)%float
                     rest_px SPRING_STIFFNESS SPRING_DAMPING in
  let self := with_springs (springs self ++ [s0]) self in
  (* 2) between neighbouring masses *)
  self <- for_range_m 1 (n_masses - 1) add_inner_spring self ;;
  (* 3) last spring: last mass to the wall *)
  b_last <- body_at (bodies self) (-1) ;;
  let s_last := mkSpring b_last (right_anchor self) (0, 0)%float
                         (right_anchor_pos self)
                         rest_px SPRING_STIFFNESS SPRING_DAMPING in
  let self := with_springs (springs self ++ [s_last]) self in
  Ok (with_space (space_add [] [] (springs self) (space self)) self).

End BuildChain.

Definition _build_chain : App -> PyResult App := build_chain N_MASSES.

(** ** [_apply_first_spring_impulse] (lines 186-191) *)

Definition _apply_first_spring_impulse (self : App) : App :=
  let lift_px := m_to_px (anchor_lift_m self) in
  let '(x, y) := position (left_anchor self) in
  let self :=
    with_left_anchor
      (with_position (x, (y - lift_px)%float) (left_anchor self)) self in
  with_impulse_applied true self.

(** ** [_reset_sim] (lines 233-243) *)

Definition _reset_sim (self : App) : PyResult App :=
  let self := with_space new_space self in
  g <- getitem gravity_presets (Z.of_nat (gravity_index self)) ;;
  let self := with_space (space_with_gravity g (space self)) self in
  let self :=
    with_space (space_with_damping (damping self) (space self)) self in
  let self := with_bodies [] self in
  let self := with_shapes [] self in
  let self := with_springs [] self in
  self <- _build_chain self ;;
  let self := with_time_accum 0.0 self in
  Ok (with_impulse_applied false self).

(** ** [_process_events] (lines 193-231) *)

Inductive Key : Set :=
| K_ESCAPE | K_g | K_1 | K_2 | K_3 | K_4 | K_5 | K_6 | K_i | K_r
| K_other.

(** What [pygame.event.get()] yields: a quit request, a key press, or an
    event of any other type. *)
Inductive Event : Set :=
| QUIT
| KEYDOWN (key : Key)
| OTHER.

Definition handle_key (k : Key) (self : App) : PyResult App :=
  match k with
  | K_ESCAPE => Ok (with_running false self)
  | K_g =>
      let self :=
        with_gravity_index
          ((gravity_index self + 1) mod length gravity_presets) self in
      g <- getitem gravity_presets (Z.of_nat (gravity_index self)) ;;
      Ok (with_space (space_with_gravity g (space self)) self)
  | K_1 =>
      let self := with_damping (py_max 0.0 (damping self - 0.01)) self in
      Ok (with_space (space_with_damping (damping self) (space self)) self)
  | K_2 =>
      let self := with_damping (py_min 0.999 (damping self + 0.01)) self in
      Ok (with_space (space_with_damping (damping self) (space self)) self)
  | K_3 =>
      Ok (with_anchor_lift_m (py_max 0.0 (anchor_lift_m self - 0.05)) self)
  | K_4 =>
      Ok (with_anchor_lift_m (py_min 2.0 (anchor_lift_m self + 0.05)) self)
  | K_5 =>
      Ok (with_impulse_time_s (py_max 0.0 (impulse_time_s self - 0.05)) self)
  | K_6 =>
      Ok (with_impulse_time_s (py_min 5.0 (impulse_time_s self + 0.05)) self)
  | K_i =>
      if negb (impulse_applied self)
      then Ok (_apply_first_spring_impulse self)
      else Ok self
  | K_r => _reset_sim self
  | K_other => Ok self
  end.

Definition handle_event (event : Event) (self : App) : PyResult App :=
  match event with
  | QUIT => Ok (with_running false self)
  | KEYDOWN k => handle_key k self
  | OTHER => Ok self
  end.

(** The [for] loop over the pending events. *)
Fixpoint _process_events (events : list Event) (self : App)
  : PyResult App :=
  match events with
  | [] => Ok self
  | event :: rest =>
      self <- handle_event event self ;; _process_events rest self
  end.

(** ** [__init__] (lines 66-104)

    Attributes that [__init__] has not assigned yet when it calls
    [_build_chain] hold the values of [unassigned]; each is assigned before
    anything reads it. *)

Definition unassigned : App :=
  mkApp new_space 0 0 0 0 0 0 [] [] [] (new_body STATIC 0) vzero
        StaticBodyRef vzero (Circle StaticBodyRef 0) false 0 false.

Definition __init__ : PyResult App :=
  let self := unassigned in
  let self := with_space new_space self in
  let self := with_gravity_index 0 self in
  g <- getitem gravity_presets (Z.of_nat (gravity_index self)) ;;
  let self := with_space (space_with_gravity g (space self)) self in
  let self := with_damping SPACE_DAMPING self in
  let self :=
    with_space (space_with_damping (damping self) (space self)) self in
  let self := with_impulse_time_s IMPULSE_TIME_S self in
  let self := with_anchor_lift_m ANCHOR_LIFT_M self in
  let self := with_dt (1.0 / 120.0) self in
  let self := with_physics_steps_per_frame 2 self in
  let self := with_bodies [] self in
  let self := with_shapes [] self in
  let self := with_springs [] self in
  self <- _build_chain self ;;
  let self := with_running true self in
  let self := with_time_accum 0.0 self in
  Ok (with_impulse_applied false self).

(** ** The physics step

    [self.space.step(self.dt)] is a call into the physics library, whose
    code is not part of the program's source.  The specification describes
    what a step does (its sections 4.2 and 4.3, and the note on position
    holders in section 9); the definitions of this module follow that text. *)

Module Integrator.

(** Modelled from the spec: part of [Space.step], missing from the source.
    The object a spring endpoint refers to; a reference to a mass that is
    not in the chain denotes nothing. *)
Definition deref (self : App) (r : BodyRef) : option Body :=
  match r with
  | LeftAnchorRef => Some (left_anchor self)
  | StaticBodyRef => Some (static_body (space self))
  | MassRef i => nth_error (bodies self) i
  end.

(** Modelled from the spec: part of [Space.step], missing from the source.
    The position of a spring endpoint: the position of the holder it is
    attached to, displaced by the attachment point. *)
Definition endpoint_position (self : App) (r : BodyRef) (anchor : Vec2d)
  : Vec2d :=
  match deref self r with
  | Some b => vadd (position b) anchor
  | None => anchor
  end.

(** Modelled from the spec: part of [Space.step], missing from the source.
    The velocity of a spring endpoint; "the velocity of a static or
    kinematic endpoint contributes 0". *)
Definition endpoint_velocity (self : App) (r : BodyRef) : Vec2d :=
  match deref self r with
  | Some b =>
      match body_type b with
      | DYNAMIC => velocity b
      | KINEMATIC | STATIC => vzero
      end
  | None => vzero
  end.

(** Modelled from the spec: part of [Space.step], missing from the source.
    The force law of section 4.2, with its signs as written.  The result is
    the vector "applied to endpoint 2"; endpoint 1 receives its
    opposite.  A spring of length zero takes the direction (1, 0). *)
Definition spring_force (self : App) (s : DampedSpring) : Vec2d :=
  let p1 := endpoint_position self (spring_a s) (anchor_a s) in
  let p2 := endpoint_position self (spring_b s) (anchor_b s) in
  let d := vsub p2 p1 in
  let len := vlen d in
  let unit :=
    if PrimFloat.eqb len 0 then (1, 0)%float
    else (fst d / len, snd d / len)%float in
  let x := (len - rest_length s)%float in
  let vrel :=
    vdot (vsub (endpoint_velocity self (spring_b s))
               (endpoint_velocity self (spring_a s))) unit in
  let F := (stiffness s * x + spring_damping s * vrel)%float in
  vscale F unit.

(** Modelled from the spec: part of [Space.step], missing from the source.
    The force accumulators, one per element of the chain's bodies; "only
    Body endpoints accumulate received force". *)
Fixpoint add_at (i : nat) (f : Vec2d) (acc : list Vec2d) : list Vec2d :=
  match acc, i with
  | [], _ => []
  | a :: rest, O => vadd a f :: rest
  | a :: rest, S j => a :: add_at j f rest
  end.

(** Modelled from the spec: part of [Space.step], missing from the source.
    A force received by the endpoint [r]. *)
Definition accumulate (r : BodyRef) (f : Vec2d) (acc : list Vec2d)
  : list Vec2d :=
  match r with
  | MassRef i => add_at i f acc
  | LeftAnchorRef | StaticBodyRef => acc
  end.

(** Modelled from the spec: part of [Space.step], missing from the source.
    Steps 1 and 2 of section 4.3: the accumulators start at zero and every
    spring adds its pair of forces. *)
Definition spring_forces (self : App) : list Vec2d :=
  fold_left
    (fun acc s =>
       let f := spring_force self s in
       accumulate (spring_a s) (vscale (-1) f)
         (accumulate (spring_b s) f acc))
    (space_constraints (space self))
    (repeat vzero (length (bodies self))).

(** Modelled from the spec: part of [Space.step], missing from the source.
    Steps 3 to 6 of section 4.3 for one position holder: gravity is added
    to the accumulated force, the velocity gains force / mass x dt and is
    multiplied by the damping factor, and the position gains the new
    velocity x dt.  Following section 9, the holder is a tagged variant and
    "only the dynamic variant participates in force accumulation and
    integration". *)
Definition advance (g : Vec2d) (damping_factor step_dt : float)
    (f : Vec2d) (b : Body) : Body :=
  match body_type b with
  | DYNAMIC =>
      let f := vadd f (vscale (mass b) g) in
      let a := (fst f / mass b, snd f / mass b)%float in
      let v := vadd (velocity b) (vscale step_dt a) in
      let v := vscale damping_factor v in
      let p := vadd (position b) (vscale step_dt v) in
      mkBody (body_type b) (mass b) p v
  | KINEMATIC | STATIC => b
  end.

(** Modelled from the spec: part of [Space.step], missing from the source.
    Every body of the chain advanced with its accumulated force. *)
Fixpoint advance_all (g : Vec2d) (damping_factor step_dt : float)
    (fs : list Vec2d) (bs : list Body) : list Body :=
  match bs, fs with
  | [], _ => []
  | b :: bs', f :: fs' =>
      advance g damping_factor step_dt f b
      :: advance_all g damping_factor step_dt fs' bs'
  | b :: bs', [] =>
      advance g damping_factor step_dt vzero b
      :: advance_all g damping_factor step_dt [] bs'
  end.

(** Modelled from the spec: [pymunk.Space.step], which [run] calls at line
    301 and whose code is missing from the source.  It is [step(chain, dt)]
    of section 4.3, applied to every position holder of the instance; "if
    dt is non-positive the step is a no-op". *)
Definition step (step_dt : float) (self : App) : App :=
  if PrimFloat.leb step_dt 0 then self
  else
    let sp := space self in
    let g := gravity sp in
    let k := space_damping sp in
    let fs := spring_forces self in
    let self' :=
      with_left_anchor (advance g k step_dt vzero (left_anchor self))
        self in
    let self' :=
      with_space
        (mkSpace (gravity sp) (space_damping sp)
           (advance g k step_dt vzero (static_body sp))
           (space_bodies sp) (space_shapes sp) (space_constraints sp))
        self' in
    with_bodies (advance_all g k step_dt fs (bodies self)) self'.

End Integrator.

(** ** [_draw] (lines 245-262)

    Of what [_draw] does, the line segments it draws for the springs: from
    the left anchor to the first mass, between neighbouring masses, and from
    the last mass to the wall.  They are where the program takes the two
    ends of each spring to be. *)

Definition draw_inner_line (self : App) (i : nat)
    (lines : list (Vec2d * Vec2d)) : PyResult (list (Vec2d * Vec2d)) :=
  a <- getitem (bodies self) (Z.of_nat i - 1) ;;
  b <- getitem (bodies self) (Z.of_nat i) ;;
  Ok (lines ++ [(position a, position b)]).

Definition spring_lines (self : App) : PyResult (list (Vec2d * Vec2d)) :=
  let p0 := position (left_anchor self) in
  b0 <- getitem (bodies self) 0 ;;
  let p1 := position b0 in
  let lines := [(p0, p1)] in
  lines <- for_range_m 1 (N_MASSES - 1) (draw_inner_line self) lines ;;
  last <- getitem (bodies self) (-1) ;;
  Ok (lines ++ [(position last, right_anchor_pos self)]).

(** The length of a drawn segment. *)
Definition line_length (line : Vec2d * Vec2d) : float :=
  vlen (vsub (snd line) (fst line)).

(** ** [run] (lines 289-305)

    One turn of the [while] loop is [frame]; drawing, the frame-rate clock
    and the window caption read the state and leave it as it is. *)

(** Lines 299-301. *)
Definition physics (self : App) : App :=
  Nat.iter (physics_steps_per_frame self)
    (fun self => Integrator.step (dt self) self) self.

(** Lines 293-297: the impulse of the first spring, once, on time. *)
Definition timed_impulse (self : App) : App :=
  if negb (impulse_applied self) then
    let self :=
      with_time_accum
        (time_accum self
         + dt self * float_of_nat (physics_steps_per_frame self))%float
        self in
    if py_ge (time_accum self) (impulse_time_s self)
    then _apply_first_spring_impulse self
    else self
  else self.

(** Lines 293-301: what a turn does after the events are handled. *)
Definition tick (self : App) : App := physics (timed_impulse self).

Definition frame (events : list Event) (self : App) : PyResult App :=
  self <- _process_events events self ;; Ok (tick self).

(** The loop, given the events that arrive before each turn; it stops when
    [self.running] is false or the given turns are used up. *)
Fixpoint run (turns : list (list Event)) (self : App) : PyResult App :=
  match turns with
  | [] => Ok self
  | events :: rest =>
      if running self
      then self <- frame events self ;; run rest self
      else Ok self
  end.

(** * Vocabulary of the statements

    Names for what the program builds and passes through, used to state
    its properties. *)

(** ** The chain a build leaves *)

(** The body object that the first loop creates in turn [i]. *)
Definition mass_body (i : nat) : Body :=
  mkBody DYNAMIC MASS_KG
         ((start_x + float_of_nat (i + 1) * span_px)%float, baseline_y)
         vzero.

Definition mass_shape (i : nat) : Shape :=
  Circle (MassRef i) (float_of_nat MASS_RADIUS_PX).

(** The spring that the second loop creates in turn [i]. *)
Definition inner_spring (i : nat) : DampedSpring :=
  mkSpring (MassRef (i - 1)) (MassRef i) (0, 0)%float (0, 0)%float
           rest_px SPRING_STIFFNESS SPRING_DAMPING.

Definition first_spring : DampedSpring :=
  mkSpring LeftAnchorRef (MassRef 0) (0, 0)%float (0, 0)%float
           rest_px SPRING_STIFFNESS SPRING_DAMPING.

Definition last_spring (n : nat) : DampedSpring :=
  mkSpring (MassRef (n - 1)) StaticBodyRef (0, 0)%float
           (wall_x n, baseline_y)
           rest_px SPRING_STIFFNESS SPRING_DAMPING.

Definition chain_springs (n : nat) : list DampedSpring :=
  first_spring :: map inner_spring (seq 1 (n - 1)) ++ [last_spring n].

Definition chain_wall (n : nat) : Shape :=
  Segment StaticBodyRef (wall_x n, 40)%float
          (wall_x n, float_of_nat (HEIGHT - 40)) 1.0.

Definition base_anchor : Body :=
  mkBody KINEMATIC 0 (start_x, baseline_y) vzero.

(** The state after a build of [n] masses on an instance whose lists are
    empty. *)
Definition built (n : nat) (self : App) : App :=
  let sp := space self in
  mkApp
    (mkSpace (gravity sp) (space_damping sp) (static_body sp)
       (space_bodies sp ++ map MassRef (seq 0 n))
       ((space_shapes sp ++ [chain_wall n]) ++ map mass_shape (seq 0 n))
       (space_constraints sp ++ chain_springs n))
    (gravity_index self) (damping self) (impulse_time_s self)
    (anchor_lift_m self) (dt self) (physics_steps_per_frame self)
    (map mass_body (seq 0 n)) (map mass_shape (seq 0 n)) (chain_springs n)
    base_anchor (start_x, baseline_y) StaticBodyRef (wall_x n, baseline_y)
    (chain_wall n) (running self) (time_accum self) (impulse_applied self).

(** The two bodies a spring joins. *)
Definition endpoints (s : DampedSpring) : BodyRef * BodyRef :=
  (spring_a s, spring_b s).

(** The instance on which [__init__] calls [_build_chain]. *)
Definition before_first_build : App :=
  with_physics_steps_per_frame 2
    (with_dt (1.0 / 120.0)
       (with_anchor_lift_m ANCHOR_LIFT_M
          (with_impulse_time_s IMPULSE_TIME_S
             (with_damping SPACE_DAMPING unassigned)))).

(** ** The values the tunable parameters can take

    Each tunable parameter starts at its configured value and moves only by
    the two key handlers that lower and raise it.  The values it can ever
    hold are therefore the closure of the start value under these two
    functions; the closure is finite and is computed here, with the floats'
    own rounding. *)

Module Orbit.

Definition mem (x : float) (l : list float) : bool :=
  existsb (PrimFloat.Leibniz.eqb x) l.

Fixpoint index_of (x : float) (l : list float) : nat :=
  match l with
  | [] => 0
  | y :: rest =>
      if PrimFloat.Leibniz.eqb x y then 0 else S (index_of x rest)
  end.

(** Worklist closure of [seen] under [down] and [up]. *)
Fixpoint close (fuel : nat) (down up : float -> float)
    (todo seen : list float) : list float :=
  match fuel, todo with
  | S fuel', x :: todo' =>
      let visit (st : list float * list float) (y : float) :=
        let '(td, sn) := st in
        if mem y sn then (td, sn) else (y :: td, y :: sn) in
      let '(td, sn) := fold_left visit [down x; up x] (todo', seen) in
      close fuel' down up td sn
  | _, _ => seen
  end.

(** [l] holds the images of its elements, at the positions [index_of]
    finds. *)
Definition closed (down up : float -> float) (l : list float) : Prop :=
  Forall
    (fun d =>
       nth_error l (index_of (down d) l) = Some (down d)
       /\ nth_error l (index_of (up d) l) = Some (up d)) l.

End Orbit.

Definition damping_down (d : float) : float := py_max 0.0 (d - 0.01).
Definition damping_up (d : float) : float := py_min 0.999 (d + 0.01).
Definition lift_down (l : float) : float := py_max 0.0 (l - 0.05).
Definition lift_up (l : float) : float := py_min 2.0 (l + 0.05).
Definition time_down (t : float) : float := py_max 0.0 (t - 0.05).
Definition time_up (t : float) : float := py_min 5.0 (t + 0.05).

Definition damping_values : list float :=
  Eval vm_compute in
    Orbit.close 4000 damping_down damping_up [SPACE_DAMPING] [SPACE_DAMPING].

Definition lift_values : list float :=
  Eval vm_compute in
    Orbit.close 4000 lift_down lift_up [ANCHOR_LIFT_M] [ANCHOR_LIFT_M].

Definition time_values : list float :=
  Eval vm_compute in
    Orbit.close 4000 time_down time_up [IMPULSE_TIME_S] [IMPULSE_TIME_S].

(** ** The states of a run *)

Definition initial_app : App :=
  with_impulse_applied false
    (with_time_accum 0.0
       (with_running true (built N_MASSES before_first_build))).

(** The attributes of the controller proper. *)
Definition controller (s : App) :=
  (gravity_index s, damping s, impulse_time_s s, anchor_lift_m s, dt s,
   physics_steps_per_frame s, running s, time_accum s, impulse_applied s).

(** The layout of the chain: which springs there are and where the anchors
    attach. *)
Definition topology (s : App) :=
  (springs s, shapes s, left_anchor_base s, right_anchor s,
   right_anchor_pos s, wall_shape s, length (bodies s)).

(** The settings and the contents of the space. *)
Definition space_settings (s : App) :=
  (gravity (space s), space_damping (space s), space_bodies (space s),
   space_shapes (space s), space_constraints (space s)).

(** Both anchors, as objects. *)
Definition anchors (s : App) : Body * Body :=
  (left_anchor s, static_body (space s)).

(** What holds of the instance whenever the loop of [run] is at an event, at
    the timed impulse or at a physics step. *)
Record well_formed (s : App) : Prop := {
  wf_gravity :
    nth_error gravity_presets (gravity_index s) = Some (gravity (space s));
  wf_left : body_type (left_anchor s) = KINEMATIC;
  wf_wall : body_type (static_body (space s)) = STATIC;
  wf_wall_origin : position (static_body (space s)) = vzero;
  wf_damping : In (damping s) damping_values;
  wf_space_damping : space_damping (space s) = damping s;
  wf_lift : In (anchor_lift_m s) lift_values;
  wf_time : In (impulse_time_s s) time_values;
  wf_dt : dt s = (1.0 / 120.0)%float;
  wf_steps : physics_steps_per_frame s = 2;
  wf_bodies : length (bodies s) = N_MASSES;
  wf_springs : springs s = chain_springs N_MASSES;
  wf_constraints : space_constraints (space s) = chain_springs N_MASSES;
  wf_wall_pos : right_anchor_pos s = (wall_x N_MASSES, baseline_y);
  wf_right : right_anchor s = StaticBodyRef
}.

(** The states of a run: the instance [__init__] returns, and what an event
    handler, the timed impulse or a physics step makes of such a state.  The
    loop of [run] interleaves the three in a fixed order; any order is
    allowed here, so every state the program passes through is covered. *)
Inductive reachable : App -> Prop :=
| reach_init : reachable initial_app
| reach_event s e s' :
    reachable s -> handle_event e s = Ok s' -> reachable s'
| reach_impulse s : reachable s -> reachable (timed_impulse s)
| reach_step s : reachable s -> reachable (Integrator.step (dt s) s).

(** The instance on which [_reset_sim] calls [_build_chain], the selected
    gravity preset being [g]. *)
Definition before_rebuild (g : Vec2d) (s : App) : App :=
  let self := with_space new_space s in
  let self := with_space (space_with_gravity g (space self)) self in
  let self :=
    with_space (space_with_damping (damping self) (space self)) self in
  let self := with_bodies [] self in
  let self := with_shapes [] self in
  with_springs [] self.

Definition after_reset (g : Vec2d) (s : App) : App :=
  with_impulse_applied false
    (with_time_accum 0.0 (built N_MASSES (before_rebuild g s))).

(** The instance after the [i] key is pressed on the initial one. *)
Definition triggered_app : App := _apply_first_spring_impulse initial_app.

(** ** Turns of the loop *)

(** Where the impulse puts a point: [lift_m] metres up the screen, that is
    towards smaller [y]. *)
Definition lifted (lift_m : float) (p : Vec2d) : Vec2d :=
  (fst p, (snd p - lift_m * PIXELS_PER_METER)%float).

(** The elapsed time a turn with the impulse pending arrives at, and whether
    it has reached the trigger time. *)
Definition elapsed_after_tick (s : App) : float :=
  (time_accum s + dt s * float_of_nat (physics_steps_per_frame s))%float.

Definition reaches_trigger (s : App) : bool :=
  py_ge (elapsed_after_tick s) (impulse_time_s s).

(** The elapsed time and the impulse flag after [n] turns without events. *)
Definition timer_after (n : nat) : PyResult (float * bool) :=
  s <- run (repeat [] n) initial_app ;;
  Ok (time_accum s, impulse_applied s).

(** The events that trigger the impulse by hand or reset the simulation. *)
Definition manual (e : Event) : bool :=
  match e with
  | KEYDOWN K_i | KEYDOWN K_r => true
  | _ => false
  end.

Definition automatic (turns : list (list Event)) : bool :=
  forallb (forallb (fun e => negb (manual e))) turns.

(** The turns of [run], each recorded as the instance at its timed impulse
    (after its events are handled) and the instance at its end. *)
Fixpoint turn_log (turns : list (list Event)) (self : App)
  : PyResult (list (App * App)) :=
  match turns with
  | [] => Ok []
  | events :: rest =>
      if running self then
        s1 <- _process_events events self ;;
        log <- turn_log rest (tick s1) ;;
        Ok ((s1, tick s1) :: log)
      else Ok []
  end.

(** The turns of a log up to the first that reaches the trigger time leave
    the anchor [a] where it is and the impulse pending; that turn, if there
    is one, lifts the anchor by the lift amount then configured; the turns
    after it leave the anchor where the lift put it. *)
Definition below_trigger (a : Body) (turn : App * App) : Prop :=
  reaches_trigger (fst turn) = false
  /\ left_anchor (snd turn) = a
  /\ impulse_applied (snd turn) = false
  /\ time_accum (snd turn) = elapsed_after_tick (fst turn).

Definition at_rest (a : Body) (turn : App * App) : Prop :=
  left_anchor (snd turn) = a /\ impulse_applied (snd turn) = true.

Definition lifts_once (a : Body) (log : list (App * App)) : Prop :=
  exists before after,
    log = before ++ after
    /\ Forall (below_trigger a) before
    /\ match after with
       | [] => True
       | (s1, s2) :: rest =>
           reaches_trigger s1 = true
           /\ impulse_applied s1 = false
           /\ position (left_anchor s2)
              = lifted (anchor_lift_m s1) (position a)
           /\ impulse_applied s2 = true
           /\ Forall (at_rest (left_anchor s2)) rest
       end.

(** ** Ranges and presets *)

Definition in_unit_interval (d : float) : bool :=
  PrimFloat.leb 0 d && PrimFloat.ltb d 1.

Definition between (lo hi x : float) : bool :=
  PrimFloat.leb lo x && PrimFloat.leb x hi.

Definition gravity_off : Vec2d := (0.0, 0.0)%float.
Definition gravity_on : Vec2d := (0.0, 9.81 * PIXELS_PER_METER)%float.

(** ** [main] (lines 308-310) *)

(** [main], given the events that arrive before each turn of the loop. *)
Definition main (turns : list (list Event)) : PyResult App :=
  app <- __init__ ;; run turns app.

(** ** Further vocabulary *)

(** An instance whose lists the builder has not filled yet. *)
Definition fresh (self : App) : Prop :=
  bodies self = [] /\ shapes self = [] /\ springs self = [].

(** The instance [__init__] returns, with the tunable parameters, the
    selected gravity and the run flag of [s]. *)
Definition retuned (s : App) : App :=
  with_running (running s)
    (with_anchor_lift_m (anchor_lift_m s)
       (with_impulse_time_s (impulse_time_s s)
          (with_damping (damping s)
             (with_gravity_index (gravity_index s)
                (with_space
                   (space_with_damping (damping s)
                      (space_with_gravity (gravity (space s))
                         (space initial_app)))
                   initial_app))))).

(** The events that end the loop. *)
Definition quits (e : Event) : bool :=
  match e with
  | QUIT | KEYDOWN K_ESCAPE => true
  | _ => false
  end.

Definition resets (e : Event) : bool :=
  match e with
  | KEYDOWN K_r => true
  | _ => false
  end.

(** Turns in which nobody resets the simulation. *)
Definition without_reset (turns : list (list Event)) : bool :=
  forallb (forallb (fun e => negb (resets e))) turns.

(** Turns in which nobody resets the simulation or ends the loop. *)
Definition undisturbed (turns : list (list Event)) : bool :=
  forallb (forallb (fun e => negb (resets e) && negb (quits e))) turns.

(** The initial instance after a turn in which gravity is switched on and
    off again and the window is closed. *)
Definition closed_app : App := tick (with_running false initial_app).

(** Where [_build_chain] puts the left anchor. *)
Definition anchor_home : Vec2d := (start_x, baseline_y).

(** The left anchor is at home while the impulse is pending, and one lift
    above home, by a lift amount the keys can reach, once it is applied. *)
Definition anchor_in_place (s : App) : Prop :=
  if impulse_applied s
  then exists l, In l lift_values
                 /\ position (left_anchor s) = lifted l anchor_home
  else position (left_anchor s) = anchor_home.

(** What the space holds besides its constraints: the masses, each once,
    and the wall with the circles of the masses. *)
Definition registered (s : App) : Prop :=
  space_bodies (space s) = map MassRef (seq 0 N_MASSES)
  /\ space_shapes (space s)
     = chain_wall N_MASSES :: map mass_shape (seq 0 N_MASSES)
  /\ shapes s = map mass_shape (seq 0 N_MASSES)
  /\ wall_shape s = chain_wall N_MASSES.

(** The elapsed time after [k] turns with the impulse pending. *)
Definition elapsed (k : nat) : float :=
  Nat.iter k (fun t => (t + 1 / 120 * 2)%float) 0%float.

(** The points the drawn springs join, in order: the left anchor, the
    masses, the wall. *)
Definition polyline (s : App) : list Vec2d :=
  position (left_anchor s) :: map position (bodies s)
  ++ [right_anchor_pos s].

(** * Properties *)

(** ** Subscripts *)

Lemma subscript_nat {A : Type} (l : list A) (i : nat) :
  i < length l -> subscript l (Z.of_nat i) = Ok i.
Proof.
  intros Hi. unfold subscript.
  replace ((0 <=? Z.of_nat i)%Z && (Z.of_nat i <? Z.of_nat (length l))%Z)
    with true.
  - now rewrite Nat2Z.id.
  - symmetry. apply andb_true_iff. split.
    + apply Z.leb_le. lia.
    + apply Z.ltb_lt. lia.
Qed.

Lemma subscript_last {A : Type} (l : list A) :
  1 <= length l -> subscript l (-1) = Ok (length l - 1).
Proof.
  intros Hl. unfold subscript.
  replace ((0 <=? -1)%Z && (-1 <? Z.of_nat (length l))%Z) with false
    by reflexivity.
  replace ((- Z.of_nat (length l) <=? -1)%Z && (-1 <? 0)%Z) with true.
  - f_equal. lia.
  - symmetry. apply andb_true_iff. split; [apply Z.leb_le; lia | reflexivity].
Qed.

Lemma body_at_nat (l : list Body) (i : nat) :
  i < length l -> body_at l (Z.of_nat i) = Ok (MassRef i).
Proof.
  intros Hi. unfold body_at. now rewrite subscript_nat.
Qed.

Lemma body_at_first (l : list Body) :
  1 <= length l -> body_at l 0 = Ok (MassRef 0).
Proof.
  intros Hl. exact (@body_at_nat l 0 Hl).
Qed.

Lemma body_at_pred (l : list Body) (i : nat) :
  1 <= i -> i <= length l ->
  body_at l (Z.of_nat i - 1) = Ok (MassRef (i - 1)).
Proof.
  intros H1 Hi.
  replace (Z.of_nat i - 1)%Z with (Z.of_nat (i - 1)) by lia.
  apply body_at_nat. lia.
Qed.

Lemma body_at_last (l : list Body) :
  1 <= length l -> body_at l (-1) = Ok (MassRef (length l - 1)).
Proof.
  intros Hl. unfold body_at. now rewrite subscript_last.
Qed.

Lemma getitem_nat {A : Type} (l : list A) (i : nat) (a : A) :
  nth_error l i = Some a -> getitem l (Z.of_nat i) = Ok a.
Proof.
  intros Hn. unfold getitem.
  rewrite subscript_nat.
  - simpl. now rewrite Hn.
  - apply nth_error_Some. congruence.
Qed.

(** ** The loops of [_build_chain] *)

Lemma for_range_S {S : Type} (lo n : nat) (body : nat -> S -> S) (s : S) :
  for_range lo (Datatypes.S n) body s
  = body (lo + n) (for_range lo n body s).
Proof.
  unfold for_range. rewrite seq_S, fold_left_app. reflexivity.
Qed.

Lemma for_range_m_S {S : Type} (lo n : nat)
    (body : nat -> S -> PyResult S) (s : S) :
  for_range_m lo (Datatypes.S n) body s
  = (s' <- for_range_m lo n body s ;; body (lo + n) s').
Proof.
  unfold for_range_m. rewrite seq_S, fold_left_app. reflexivity.
Qed.

Lemma add_mass_loop (n : nat) (self : App) :
  for_range 0 n add_mass self
  = with_shapes
      (shapes self
       ++ map (fun i => mass_shape (length (bodies self) + i)) (seq 0 n))
      (with_bodies (bodies self ++ map mass_body (seq 0 n)) self).
Proof.
  induction n as [|n IH].
  - destruct self; unfold for_range, with_shapes, with_bodies; simpl.
    now rewrite !app_nil_r.
  - rewrite for_range_S, IH. rewrite !seq_S, !map_app. simpl.
    unfold add_mass, with_shapes, with_bodies; simpl.
    rewrite length_app, length_map, length_seq, !app_assoc.
    reflexivity.
Qed.

Lemma add_inner_spring_loop (m : nat) (self : App) :
  m + 1 <= length (bodies self) ->
  for_range_m 1 m add_inner_spring self
  = Ok (with_springs (springs self ++ map inner_spring (seq 1 m)) self).
Proof.
  induction m as [|m IH]; intros Hlen.
  - destruct self; unfold for_range_m, with_springs; simpl.
    now rewrite app_nil_r.
  - rewrite for_range_m_S, IH by lia. simpl bind.
    unfold add_inner_spring.
    replace (bodies (with_springs _ self)) with (bodies self) by reflexivity.
    rewrite body_at_pred, body_at_nat by lia. simpl bind.
    rewrite seq_S, map_app. simpl.
    unfold with_springs; simpl. now rewrite !app_assoc.
Qed.

(** Evaluates the attribute updates of [self], innermost first, and reads
    the attributes back. *)
Ltac unfold_setters :=
  cbv [with_space with_gravity_index with_damping with_impulse_time_s
       with_anchor_lift_m with_dt with_physics_steps_per_frame with_bodies
       with_shapes with_springs with_left_anchor with_left_anchor_base
       with_right_anchor with_right_anchor_pos with_wall_shape with_running
       with_time_accum with_impulse_applied
       space gravity_index damping impulse_time_s anchor_lift_m dt
       physics_steps_per_frame bodies shapes springs left_anchor
       left_anchor_base right_anchor right_anchor_pos wall_shape running
       time_accum impulse_applied].

(** ** What [_build_chain] builds *)

Lemma build_chain_built (n : nat) (self : App) :
  1 <= n ->
  bodies self = [] -> shapes self = [] -> springs self = [] ->
  build_chain n self = Ok (built n self).
Proof.
  intros Hn Hb Hsh Hsp.
  destruct self as [sp gi dm it al d ps bd sh sg la lb ra rp ws rn ta ia].
  simpl in Hb, Hsh, Hsp. subst bd sh sg.
  unfold build_chain. cbv zeta.
  rewrite add_mass_loop. unfold_setters. cbn [app length Nat.add].
  rewrite length_map, length_seq.
  rewrite body_at_first by (rewrite length_map, length_seq; lia).
  cbn [bind].
  rewrite add_inner_spring_loop
    by (cbn [bodies]; rewrite length_map, length_seq; lia).
  cbn [bind]. unfold_setters.
  rewrite body_at_last by (rewrite length_map, length_seq; lia).
  rewrite length_map, length_seq.
  cbn [bind]. unfold_setters.
  unfold built, space_add, chain_springs, first_spring, last_spring,
    chain_wall, base_anchor, with_position, new_body.
  cbn [space gravity space_damping static_body space_bodies space_shapes
       space_constraints body_type mass position velocity app].
  rewrite ?app_nil_r. reflexivity.
Qed.

Lemma chain_springs_length (n : nat) :
  1 <= n -> length (chain_springs n) = n + 1.
Proof.
  intros Hn. unfold chain_springs. simpl.
  rewrite length_app, length_map, length_seq. simpl. lia.
Qed.

Lemma chain_springs_inner (n i : nat) :
  1 <= i < n -> nth_error (chain_springs n) i = Some (inner_spring i).
Proof.
  intros [H1 Hi]. unfold chain_springs.
  destruct i as [|j]; [lia|]. simpl.
  rewrite nth_error_app1 by (rewrite length_map, length_seq; lia).
  rewrite nth_error_map.
  rewrite (nth_error_nth' _ 0) by (rewrite length_seq; lia).
  rewrite seq_nth by lia. reflexivity.
Qed.

Lemma chain_springs_last (n : nat) :
  1 <= n -> nth_error (chain_springs n) n = Some (last_spring n).
Proof.
  intros Hn. unfold chain_springs.
  destruct n as [|m]; [lia|]. simpl.
  rewrite nth_error_app2 by (rewrite length_map, length_seq; lia).
  rewrite length_map, length_seq.
  replace (m - (m - 0)) with 0 by lia. reflexivity.
Qed.

Lemma N_MASSES_pos : 1 <= N_MASSES.
Proof. unfold N_MASSES. lia. Qed.

(** C1.  A chain built on an instance whose lists are empty (as [__init__]
    and [_reset_sim] leave them) has [N_MASSES] bodies and [N_MASSES + 1]
    springs; spring 0 joins the left kinematic anchor to body 0, spring [i]
    for [1 <= i < N_MASSES] joins body [i - 1] to body [i], and spring
    [N_MASSES] joins body [N_MASSES - 1] to the right anchor, which is the
    space's static body.  Body [i] is the one created in turn [i] of the
    first loop. *)
Theorem C1_fresh_chain_topology (self : App) :
  bodies self = [] -> shapes self = [] -> springs self = [] ->
  exists chain,
    _build_chain self = Ok chain
    /\ N_MASSES = 150
    /\ length (bodies chain) = N_MASSES
    /\ length (springs chain) = N_MASSES + 1
    /\ body_type (left_anchor chain) = KINEMATIC
    /\ right_anchor chain = StaticBodyRef
    /\ option_map endpoints (nth_error (springs chain) 0)
       = Some (LeftAnchorRef, MassRef 0)
    /\ (forall i, 1 <= i < N_MASSES ->
          option_map endpoints (nth_error (springs chain) i)
          = Some (MassRef (i - 1), MassRef i))
    /\ option_map endpoints (nth_error (springs chain) N_MASSES)
       = Some (MassRef (N_MASSES - 1), right_anchor chain)
    /\ (forall i, i < N_MASSES ->
          nth_error (bodies chain) i = Some (mass_body i)).
Proof.
  intros Hb Hsh Hsp. exists (built N_MASSES self).
  pose proof N_MASSES_pos as Hn.
  split; [now apply build_chain_built|].
  split; [reflexivity|].
  split; [cbn [built bodies]; now rewrite length_map, length_seq|].
  split; [cbn [built springs]; now apply chain_springs_length|].
  split; [reflexivity|].
  split; [reflexivity|].
  split; [reflexivity|].
  split.
  { intros i Hi. cbn [built springs].
    now rewrite chain_springs_inner. }
  split.
  { cbn [built springs right_anchor].
    now rewrite chain_springs_last. }
  intros i Hi. cbn [built bodies].
  rewrite nth_error_map.
  rewrite (nth_error_nth' _ 0) by (rewrite length_seq; lia).
  rewrite seq_nth by lia. reflexivity.
Qed.

Lemma C1_fresh_chain_topology_witness :
  exists chain,
    _build_chain before_first_build = Ok chain
    /\ N_MASSES = 150
    /\ length (bodies chain) = N_MASSES
    /\ length (springs chain) = N_MASSES + 1
    /\ body_type (left_anchor chain) = KINEMATIC
    /\ right_anchor chain = StaticBodyRef
    /\ option_map endpoints (nth_error (springs chain) 0)
       = Some (LeftAnchorRef, MassRef 0)
    /\ (forall i, 1 <= i < N_MASSES ->
          option_map endpoints (nth_error (springs chain) i)
          = Some (MassRef (i - 1), MassRef i))
    /\ option_map endpoints (nth_error (springs chain) N_MASSES)
       = Some (MassRef (N_MASSES - 1), right_anchor chain)
    /\ (forall i, i < N_MASSES ->
          nth_error (bodies chain) i = Some (mass_body i)).
Proof.
  apply (C1_fresh_chain_topology before_first_build); reflexivity.
Defined.

(** ** The parameter values *)

Lemma orbit_closed_In (down up : float -> float) (l : list float) (d : float) :
  Orbit.closed down up l -> In d l -> In (down d) l /\ In (up d) l.
Proof.
  intros Hc Hd. unfold Orbit.closed in Hc. rewrite Forall_forall in Hc.
  destruct (Hc d Hd) as [H1 H2]. split; eapply nth_error_In; eassumption.
Qed.

Ltac prove_orbit_closed :=
  unfold Orbit.closed;
  repeat (apply Forall_cons; [split; vm_compute; reflexivity|]);
  apply Forall_nil.

(** Membership of a given float, by its position. *)
Ltac prove_In_values :=
  match goal with
  | |- In ?x ?l =>
      apply (nth_error_In l (Orbit.index_of x l)); vm_compute; reflexivity
  end.

Lemma damping_values_closed :
  Orbit.closed damping_down damping_up damping_values.
Proof. unfold damping_values. prove_orbit_closed. Qed.

Lemma lift_values_closed : Orbit.closed lift_down lift_up lift_values.
Proof. unfold lift_values. prove_orbit_closed. Qed.

Lemma time_values_closed : Orbit.closed time_down time_up time_values.
Proof. unfold time_values. prove_orbit_closed. Qed.

(** ** The instance [__init__] returns *)

Lemma init_ok : __init__ = Ok initial_app.
Proof. vm_compute. reflexivity. Qed.

(** ** What a physics step leaves alone *)

Lemma advance_all_length g k d fs bs :
  length (Integrator.advance_all g k d fs bs) = length bs.
Proof.
  revert fs. induction bs as [|b bs IH]; intros fs; [reflexivity|].
  destruct fs; simpl; now rewrite IH.
Qed.

Lemma step_controller d s : controller (Integrator.step d s) = controller s.
Proof.
  unfold Integrator.step. destruct (PrimFloat.leb d 0); reflexivity.
Qed.

Lemma step_space_settings d s :
  space_settings (Integrator.step d s) = space_settings s.
Proof.
  unfold Integrator.step. destruct (PrimFloat.leb d 0); reflexivity.
Qed.

Lemma step_topology d s : topology (Integrator.step d s) = topology s.
Proof.
  unfold Integrator.step. destruct (PrimFloat.leb d 0); [reflexivity|].
  unfold topology. cbn [springs shapes left_anchor_base right_anchor
    right_anchor_pos wall_shape bodies with_bodies with_space
    with_left_anchor].
  now rewrite advance_all_length.
Qed.

Lemma advance_anchor g k d f b :
  body_type b <> DYNAMIC -> Integrator.advance g k d f b = b.
Proof.
  intros Ht. unfold Integrator.advance.
  destruct (body_type b); [congruence | reflexivity | reflexivity].
Qed.

Lemma step_anchors d s :
  body_type (left_anchor s) = KINEMATIC ->
  body_type (static_body (space s)) = STATIC ->
  anchors (Integrator.step d s) = anchors s.
Proof.
  intros Hl Hr. unfold Integrator.step.
  destruct (PrimFloat.leb d 0); [reflexivity|].
  unfold anchors.
  cbn [left_anchor space static_body with_bodies with_space
       with_left_anchor].
  rewrite !advance_anchor by congruence. reflexivity.
Qed.

(** A property that every step preserves holds after the steps of a turn. *)
Lemma physics_preserves (P : App -> Prop) :
  (forall s, P s -> P (Integrator.step (dt s) s)) ->
  forall s, P s -> P (physics s).
Proof.
  intros Hstep s Hs. unfold physics.
  induction (physics_steps_per_frame s) as [|n IH]; simpl; auto.
Qed.

Lemma physics_controller s : controller (physics s) = controller s.
Proof.
  apply (physics_preserves (fun s' => controller s' = controller s));
    [|reflexivity].
  intros s' H. now rewrite step_controller.
Qed.

Lemma physics_space_settings s :
  space_settings (physics s) = space_settings s.
Proof.
  apply (physics_preserves (fun s' => space_settings s' = space_settings s));
    [|reflexivity].
  intros s' H. now rewrite step_space_settings.
Qed.

Lemma physics_topology s : topology (physics s) = topology s.
Proof.
  apply (physics_preserves (fun s' => topology s' = topology s));
    [|reflexivity].
  intros s' H. now rewrite step_topology.
Qed.

Lemma physics_anchors s :
  body_type (left_anchor s) = KINEMATIC ->
  body_type (static_body (space s)) = STATIC ->
  anchors (physics s) = anchors s.
Proof.
  intros Hl Hr.
  apply (physics_preserves (fun s' => anchors s' = anchors s));
    [|reflexivity].
  intros s' H. rewrite <- H. apply step_anchors.
  - replace (left_anchor s') with (fst (anchors s')) by reflexivity.
    now rewrite H.
  - replace (static_body (space s')) with (snd (anchors s'))
      by reflexivity.
    now rewrite H.
Qed.

(** ** States of a running program *)

Ltac frame_eqs H :=
  unfold controller, topology, space_settings, anchors in H;
  injection H; clear H; intros.

Lemma well_formed_initial : well_formed initial_app.
Proof.
  constructor; try reflexivity.
  - prove_In_values.
  - prove_In_values.
  - prove_In_values.
Qed.

Lemma well_formed_step d s :
  well_formed s -> well_formed (Integrator.step d s).
Proof.
  intros [].
  pose proof (step_controller d s) as Hc. frame_eqs Hc.
  pose proof (step_space_settings d s) as Hs. frame_eqs Hs.
  pose proof (step_topology d s) as Ht. frame_eqs Ht.
  pose proof (@step_anchors d s wf_left0 wf_wall0) as Ha. frame_eqs Ha.
  constructor; congruence.
Qed.

Lemma impulse_well_formed s :
  well_formed s -> well_formed (_apply_first_spring_impulse s).
Proof.
  intros []. unfold _apply_first_spring_impulse.
  destruct (position (left_anchor s)) as [x y].
  constructor; assumption.
Qed.

Lemma well_formed_timed_impulse s :
  well_formed s -> well_formed (timed_impulse s).
Proof.
  intros Hwf. unfold timed_impulse.
  destruct (negb (impulse_applied s)); [|assumption].
  match goal with |- well_formed (if ?c then _ else _) => destruct c end.
  - apply impulse_well_formed. destruct Hwf. constructor; assumption.
  - destruct Hwf. constructor; assumption.
Qed.

Lemma reset_ok (s : App) (g : Vec2d) :
  nth_error gravity_presets (gravity_index s) = Some g ->
  _reset_sim s = Ok (after_reset g s).
Proof.
  intros Hg. unfold _reset_sim. cbv zeta.
  change (gravity_index (with_space new_space s)) with (gravity_index s).
  rewrite (getitem_nat _ _ Hg). cbn [bind].
  unfold _build_chain.
  rewrite build_chain_built; [reflexivity | apply N_MASSES_pos | | | ];
    reflexivity.
Qed.

Lemma well_formed_after_reset (s : App) (g : Vec2d) :
  well_formed s ->
  nth_error gravity_presets (gravity_index s) = Some g ->
  well_formed (after_reset g s).
Proof.
  intros [] Hg. constructor; try assumption; reflexivity.
Qed.

Lemma toggle_ok (s : App) :
  exists g,
    nth_error gravity_presets
      ((gravity_index s + 1) mod length gravity_presets) = Some g
    /\ handle_key K_g s
       = Ok (with_space (space_with_gravity g (space s))
               (with_gravity_index
                  ((gravity_index s + 1) mod length gravity_presets) s)).
Proof.
  set (i := (gravity_index s + 1) mod length gravity_presets).
  assert (Hi : i < length gravity_presets)
    by (apply Nat.mod_upper_bound; discriminate).
  destruct (nth_error gravity_presets i) as [g|] eqn:E.
  - exists g. split; [reflexivity|].
    unfold handle_key. cbv zeta.
    change (gravity_index (with_gravity_index _ s)) with i.
    rewrite (getitem_nat _ _ E). reflexivity.
  - apply nth_error_None in E. lia.
Qed.

Lemma well_formed_handle_key (k : Key) (s s' : App) :
  well_formed s -> handle_key k s = Ok s' -> well_formed s'.
Proof.
  intros Hwf H.
  destruct k; unfold handle_key in H;
    try (injection H as <-; destruct Hwf; constructor; assumption).
  - (* K_g *)
    destruct (toggle_ok s) as [g [Hg Hk]].
    unfold handle_key in Hk. rewrite Hk in H. injection H as <-.
    destruct Hwf. constructor; assumption.
  - (* K_1 *)
    injection H as <-. destruct Hwf.
    constructor; try assumption; try reflexivity.
    apply (@orbit_closed_In _ _ _ _ damping_values_closed wf_damping0).
  - (* K_2 *)
    injection H as <-. destruct Hwf.
    constructor; try assumption; try reflexivity.
    apply (@orbit_closed_In _ _ _ _ damping_values_closed wf_damping0).
  - (* K_3 *)
    injection H as <-. destruct Hwf.
    constructor; try assumption.
    apply (@orbit_closed_In _ _ _ _ lift_values_closed wf_lift0).
  - (* K_4 *)
    injection H as <-. destruct Hwf.
    constructor; try assumption.
    apply (@orbit_closed_In _ _ _ _ lift_values_closed wf_lift0).
  - (* K_5 *)
    injection H as <-. destruct Hwf.
    constructor; try assumption.
    apply (@orbit_closed_In _ _ _ _ time_values_closed wf_time0).
  - (* K_6 *)
    injection H as <-. destruct Hwf.
    constructor; try assumption.
    apply (@orbit_closed_In _ _ _ _ time_values_closed wf_time0).
  - (* K_i *)
    destruct (negb (impulse_applied s)); injection H as <-;
      [now apply impulse_well_formed | assumption].
  - (* K_r *)
    pose proof (wf_gravity Hwf) as Hg.
    rewrite (reset_ok _ Hg) in H. injection H as <-.
    now apply well_formed_after_reset.
Qed.

Lemma well_formed_handle_event (e : Event) (s s' : App) :
  well_formed s -> handle_event e s = Ok s' -> well_formed s'.
Proof.
  intros Hwf H. destruct e; simpl in H.
  - injection H as <-. destruct Hwf. constructor; assumption.
  - eapply well_formed_handle_key; eassumption.
  - now injection H as <-.
Qed.

Lemma reachable_well_formed (s : App) : reachable s -> well_formed s.
Proof.
  induction 1.
  - apply well_formed_initial.
  - eapply well_formed_handle_event; eassumption.
  - now apply well_formed_timed_impulse.
  - now apply well_formed_step.
Qed.

Lemma reachable_physics (s : App) : reachable s -> reachable (physics s).
Proof.
  apply physics_preserves. intros s'. apply reach_step.
Qed.

Lemma reachable_tick (s : App) : reachable s -> reachable (tick s).
Proof.
  intros H. apply reachable_physics. now apply reach_impulse.
Qed.

Lemma reachable_process_events (events : list Event) (s s' : App) :
  reachable s -> _process_events events s = Ok s' -> reachable s'.
Proof.
  revert s. induction events as [|e rest IH]; intros s Hs H; simpl in H.
  - now injection H as <-.
  - destruct (handle_event e s) as [s1|] eqn:E; [|discriminate].
    simpl in H. eapply IH; [|eassumption].
    eapply reach_event; eassumption.
Qed.

Lemma reachable_run (turns : list (list Event)) (s s' : App) :
  reachable s -> run turns s = Ok s' -> reachable s'.
Proof.
  revert s. induction turns as [|events rest IH]; intros s Hs H; simpl in H.
  - now injection H as <-.
  - destruct (running s); [|now injection H as <-].
    unfold frame in H.
    destruct (_process_events events s) as [s1|] eqn:E; [|discriminate].
    simpl in H. eapply IH; [|eassumption].
    apply reachable_tick. eapply reachable_process_events; eassumption.
Qed.

(** ** The impulse *)

Lemma impulse_effect (s : App) :
  position (left_anchor (_apply_first_spring_impulse s))
  = lifted (anchor_lift_m s) (position (left_anchor s))
  /\ impulse_applied (_apply_first_spring_impulse s) = true
  /\ controller (_apply_first_spring_impulse s)
     = controller (with_impulse_applied true s)
  /\ bodies (_apply_first_spring_impulse s) = bodies s
  /\ space (_apply_first_spring_impulse s) = space s.
Proof.
  unfold _apply_first_spring_impulse, lifted.
  destruct (position (left_anchor s)) as [x y]. repeat split.
Qed.

(** C2.  With the impulse pending, the handler of the [i] key moves the left
    anchor up by the configured lift: [x] is unchanged, [y] decreases by
    [anchor_lift_m * PIXELS_PER_METER], and [impulse_applied] becomes true. *)
Theorem C2_trigger_moves_anchor (s : App) :
  impulse_applied s = false ->
  exists s',
    handle_event (KEYDOWN K_i) s = Ok s'
    /\ fst (position (left_anchor s')) = fst (position (left_anchor s))
    /\ snd (position (left_anchor s'))
       = (snd (position (left_anchor s))
          - anchor_lift_m s * PIXELS_PER_METER)%float
    /\ impulse_applied s' = true.
Proof.
  intros Hp. exists (_apply_first_spring_impulse s).
  split.
  - simpl. now rewrite Hp.
  - destruct (impulse_effect s) as [Hpos [Hia _]].
    rewrite Hpos. auto.
Qed.

Lemma C2_trigger_moves_anchor_witness :
  impulse_applied initial_app = false
  /\ position (left_anchor initial_app) = (100, 300)%float
  /\ exists s',
       handle_event (KEYDOWN K_i) initial_app = Ok s'
       /\ fst (position (left_anchor s'))
          = fst (position (left_anchor initial_app))
       /\ snd (position (left_anchor s'))
          = (snd (position (left_anchor initial_app))
             - anchor_lift_m initial_app * PIXELS_PER_METER)%float
       /\ impulse_applied s' = true.
Proof.
  split; [reflexivity|]. split; [vm_compute; reflexivity|].
  apply (C2_trigger_moves_anchor initial_app). reflexivity.
Defined.

Lemma bind_Ok {A B : Type} (m : PyResult A) (k : A -> PyResult B) (b : B) :
  bind m k = Ok b -> exists a, m = Ok a /\ k a = Ok b.
Proof.
  destruct m as [a|]; [|discriminate]. intros H. now exists a.
Qed.

Lemma reset_rearms (s s' : App) :
  _reset_sim s = Ok s' ->
  impulse_applied s' = false /\ time_accum s' = 0%float.
Proof.
  unfold _reset_sim. cbv zeta. intros H.
  apply bind_Ok in H. destruct H as [g [_ H]].
  apply bind_Ok in H. destruct H as [c [_ H]].
  injection H as <-. split; reflexivity.
Qed.

(** C3.  Once the impulse is applied, the [i] key changes nothing, however
    often it is pressed: the instance after the handler is the instance
    before it.  A reset makes the impulse pending again, and then the key
    moves the anchor. *)
Theorem C3_trigger_after_applied_is_noop (s : App) :
  impulse_applied s = true ->
  handle_event (KEYDOWN K_i) s = Ok s
  /\ (forall n, _process_events (repeat (KEYDOWN K_i) n) s = Ok s)
  /\ (forall r,
        _reset_sim s = Ok r ->
        impulse_applied r = false
        /\ handle_event (KEYDOWN K_i) r
           = Ok (_apply_first_spring_impulse r)).
Proof.
  intros Ha.
  assert (H1 : handle_event (KEYDOWN K_i) s = Ok s)
    by (simpl; now rewrite Ha).
  split; [exact H1|]. split.
  - induction n as [|n IH]; [reflexivity|].
    cbn [repeat _process_events]. rewrite H1. exact IH.
  - intros r Hr. destruct (reset_rearms _ Hr) as [Hp _].
    split; [exact Hp|]. simpl. now rewrite Hp.
Qed.

Lemma C3_trigger_after_applied_is_noop_witness :
  handle_event (KEYDOWN K_i) initial_app = Ok triggered_app
  /\ handle_event (KEYDOWN K_i) triggered_app = Ok triggered_app
  /\ (forall n,
        _process_events (repeat (KEYDOWN K_i) n) triggered_app
        = Ok triggered_app)
  /\ (forall r,
        _reset_sim triggered_app = Ok r ->
        impulse_applied r = false
        /\ handle_event (KEYDOWN K_i) r
           = Ok (_apply_first_spring_impulse r)).
Proof.
  split; [reflexivity|].
  apply (C3_trigger_after_applied_is_noop triggered_app). reflexivity.
Defined.

(** ** One turn of the loop *)

Lemma timed_impulse_applied (s : App) :
  impulse_applied s = true -> timed_impulse s = s.
Proof. intros H. unfold timed_impulse. now rewrite H. Qed.

Lemma timed_impulse_below (s : App) :
  impulse_applied s = false -> reaches_trigger s = false ->
  timed_impulse s = with_time_accum (elapsed_after_tick s) s.
Proof.
  intros Hp Hr. unfold timed_impulse. rewrite Hp. cbn [negb]. cbv zeta.
  change (py_ge _ _) with (reaches_trigger s). now rewrite Hr.
Qed.

Lemma timed_impulse_fires (s : App) :
  impulse_applied s = false -> reaches_trigger s = true ->
  timed_impulse s
  = _apply_first_spring_impulse
      (with_time_accum (elapsed_after_tick s) s).
Proof.
  intros Hp Hr. unfold timed_impulse. rewrite Hp. cbn [negb]. cbv zeta.
  change (py_ge _ _) with (reaches_trigger s). now rewrite Hr.
Qed.

(** The steps of a turn leave the anchor of a well-formed instance and the
    controller's attributes as the timed impulse left them. *)
Lemma tick_after_impulse (s : App) :
  well_formed s ->
  left_anchor (tick s) = left_anchor (timed_impulse s)
  /\ impulse_applied (tick s) = impulse_applied (timed_impulse s)
  /\ time_accum (tick s) = time_accum (timed_impulse s).
Proof.
  intros Hwf. unfold tick.
  pose proof (well_formed_timed_impulse Hwf) as Hwf1.
  pose proof (physics_anchors _ (wf_left Hwf1) (wf_wall Hwf1)) as Ha.
  pose proof (physics_controller (timed_impulse s)) as Hc.
  frame_eqs Ha. frame_eqs Hc. auto.
Qed.

Lemma tick_applied (s : App) :
  well_formed s -> impulse_applied s = true ->
  left_anchor (tick s) = left_anchor s
  /\ impulse_applied (tick s) = true
  /\ time_accum (tick s) = time_accum s.
Proof.
  intros Hwf Ha. destruct (tick_after_impulse Hwf) as [H1 [H2 H3]].
  rewrite H1, H2, H3, timed_impulse_applied by assumption. auto.
Qed.

Lemma tick_below (s : App) :
  well_formed s -> impulse_applied s = false -> reaches_trigger s = false ->
  left_anchor (tick s) = left_anchor s
  /\ impulse_applied (tick s) = false
  /\ time_accum (tick s) = elapsed_after_tick s.
Proof.
  intros Hwf Hp Hr. destruct (tick_after_impulse Hwf) as [H1 [H2 H3]].
  rewrite H1, H2, H3, timed_impulse_below by assumption. auto.
Qed.

Lemma tick_fires (s : App) :
  well_formed s -> impulse_applied s = false -> reaches_trigger s = true ->
  position (left_anchor (tick s))
  = lifted (anchor_lift_m s) (position (left_anchor s))
  /\ impulse_applied (tick s) = true
  /\ time_accum (tick s) = elapsed_after_tick s.
Proof.
  intros Hwf Hp Hr. destruct (tick_after_impulse Hwf) as [H1 [H2 H3]].
  rewrite H1, H2, H3, timed_impulse_fires by assumption.
  destruct (impulse_effect (with_time_accum (elapsed_after_tick s) s))
    as [Hpos [Hia [Hc _]]].
  rewrite Hpos, Hia. frame_eqs Hc. auto.
Qed.

(** ** Elapsed time *)

(** C8, as the program has it.  A turn adds
    [dt * physics_steps_per_frame], that is 1/120 s twice, to the elapsed
    time while the impulse is pending, the turn that fires it included; once
    the impulse is applied a turn leaves the elapsed time as it is. *)
Theorem C8_elapsed_time_while_pending (s : App) :
  reachable s ->
  (dt s * float_of_nat (physics_steps_per_frame s) = 1 / 120 * 2)%float
  /\ (impulse_applied s = false ->
      time_accum (tick s)
      = (time_accum s
         + dt s * float_of_nat (physics_steps_per_frame s))%float)
  /\ (impulse_applied s = true -> time_accum (tick s) = time_accum s).
Proof.
  intros Hr. pose proof (reachable_well_formed Hr) as Hwf.
  split; [|split].
  - rewrite (wf_dt Hwf), (wf_steps Hwf). reflexivity.
  - intros Hp. destruct (reaches_trigger s) eqn:E.
    + now apply tick_fires.
    + now apply tick_below.
  - intros Ha. now apply tick_applied.
Qed.

Lemma C8_elapsed_time_while_pending_witness :
  (dt initial_app * float_of_nat (physics_steps_per_frame initial_app)
   = 1 / 120 * 2)%float
  /\ (impulse_applied initial_app = false ->
      time_accum (tick initial_app)
      = (time_accum initial_app
         + dt initial_app
           * float_of_nat (physics_steps_per_frame initial_app))%float)
  /\ (impulse_applied initial_app = true ->
      time_accum (tick initial_app) = time_accum initial_app).
Proof.
  apply (C8_elapsed_time_while_pending reach_init).
Defined.

(** C8 fails as stated: the sixteenth turn without events fires the impulse
    at an elapsed time of 0.2666... s, and the seventeenth turn leaves the
    elapsed time there instead of adding 1/60 s to it. *)
Lemma C8_every_tick_accumulates_counterexample :
  exists t16 t17,
    timer_after 16 = Ok (t16, true)
    /\ timer_after 17 = Ok (t17, true)
    /\ t17 = t16
    /\ t17 <> (t16 + 1 / 120 * 2)%float.
Proof.
  exists 0.26666666666666666%float, 0.26666666666666666%float.
  split; [vm_compute; reflexivity|].
  split; [vm_compute; reflexivity|].
  split; [reflexivity|].
  intros H.
  apply (f_equal (fun x => PrimFloat.eqb x 0.26666666666666666)) in H.
  vm_compute in H. discriminate.
Qed.

(** ** Runs without a manual trigger *)

Lemma automatic_key (k : Key) (s : App) :
  manual (KEYDOWN k) = false ->
  exists s',
    handle_key k s = Ok s'
    /\ left_anchor s' = left_anchor s
    /\ impulse_applied s' = impulse_applied s
    /\ time_accum s' = time_accum s.
Proof.
  intros Hm. destruct k; try discriminate Hm;
    try (eexists; split; [reflexivity | repeat split]).
  destruct (toggle_ok s) as [g [_ Hk]].
  eexists. split; [exact Hk | repeat split].
Qed.

Lemma automatic_event (e : Event) (s : App) :
  manual e = false ->
  exists s',
    handle_event e s = Ok s'
    /\ left_anchor s' = left_anchor s
    /\ impulse_applied s' = impulse_applied s
    /\ time_accum s' = time_accum s.
Proof.
  intros Hm. destruct e as [|k|].
  - eexists. split; [reflexivity | repeat split].
  - now apply automatic_key.
  - eexists. split; [reflexivity | repeat split].
Qed.

Lemma automatic_events (events : list Event) (s : App) :
  forallb (fun e => negb (manual e)) events = true ->
  exists s',
    _process_events events s = Ok s'
    /\ left_anchor s' = left_anchor s
    /\ impulse_applied s' = impulse_applied s
    /\ time_accum s' = time_accum s.
Proof.
  revert s. induction events as [|e rest IH]; intros s Ha.
  - exists s. repeat split.
  - cbn [forallb] in Ha. apply andb_true_iff in Ha. destruct Ha as [He Hr].
    apply negb_true_iff in He.
    destruct (automatic_event e s He) as [s1 [H1 [Hl1 [Hi1 Ht1]]]].
    destruct (IH s1 Hr) as [s2 [H2 [Hl2 [Hi2 Ht2]]]].
    exists s2. cbn [_process_events]. rewrite H1. cbn [bind].
    repeat split; congruence.
Qed.

(** After the impulse, no turn of an automatic run moves the anchor. *)
Lemma applied_run_at_rest (turns : list (list Event)) (s : App) :
  reachable s -> impulse_applied s = true -> automatic turns = true ->
  exists log,
    turn_log turns s = Ok log /\ Forall (at_rest (left_anchor s)) log.
Proof.
  revert s. induction turns as [|events rest IH]; intros s Hr Ha Hauto.
  - exists []. split; [reflexivity | constructor].
  - cbn [turn_log]. destruct (running s).
    2: { exists []. split; [reflexivity | constructor]. }
    unfold automatic in Hauto. cbn [forallb] in Hauto.
    apply andb_true_iff in Hauto. destruct Hauto as [He Hrest].
    destruct (automatic_events events s He) as [s1 [H1 [Hl1 [Hi1 Ht1]]]].
    rewrite H1. cbn [bind].
    assert (Hr1 : reachable s1)
      by (eapply reachable_process_events; eassumption).
    destruct (tick_applied (reachable_well_formed Hr1)) as [Hl2 [Hi2 _]];
      [congruence|].
    destruct (IH (tick s1) (reachable_tick Hr1) Hi2 Hrest)
      as [log [Hlog Hall]].
    rewrite Hlog. cbn [bind]. eexists. split; [reflexivity|].
    constructor.
    + split; cbn [snd]; congruence.
    + replace (left_anchor s) with (left_anchor (tick s1)) by congruence.
      exact Hall.
Qed.

Lemma pending_run_lifts_once (turns : list (list Event)) (s : App) :
  reachable s -> impulse_applied s = false -> automatic turns = true ->
  exists log,
    turn_log turns s = Ok log /\ lifts_once (left_anchor s) log.
Proof.
  revert s. induction turns as [|events rest IH]; intros s Hr Hp Hauto.
  - exists []. split; [reflexivity|].
    exists [], []. repeat split. constructor.
  - cbn [turn_log]. destruct (running s).
    2: { exists []. split; [reflexivity|].
         exists [], []. repeat split. constructor. }
    pose proof Hauto as Hauto'.
    unfold automatic in Hauto'. cbn [forallb] in Hauto'.
    apply andb_true_iff in Hauto'. destruct Hauto' as [He Hrest].
    destruct (automatic_events events s He) as [s1 [H1 [Hl1 [Hi1 Ht1]]]].
    rewrite H1. cbn [bind].
    assert (Hr1 : reachable s1)
      by (eapply reachable_process_events; eassumption).
    pose proof (reachable_well_formed Hr1) as Hwf1.
    assert (Hp1 : impulse_applied s1 = false) by congruence.
    destruct (reaches_trigger s1) eqn:Etr.
    + (* this turn reaches the trigger time *)
      destruct (tick_fires Hwf1 Hp1 Etr) as [Hpos [Hia _]].
      destruct (applied_run_at_rest rest (reachable_tick Hr1) Hia Hrest)
        as [log [Hlog Hall]].
      rewrite Hlog. cbn [bind]. eexists. split; [reflexivity|].
      exists [], ((s1, tick s1) :: log).
      split; [reflexivity|]. split; [constructor|].
      repeat split; try assumption. congruence.
    + (* this turn stays below it *)
      destruct (tick_below Hwf1 Hp1 Etr) as [Hl2 [Hi2 Ht2]].
      destruct (IH (tick s1) (reachable_tick Hr1) Hi2 Hrest)
        as [log [Hlog [before [after [Hsplit [Hbefore Hafter]]]]]].
      rewrite Hlog. cbn [bind]. eexists. split; [reflexivity|].
      assert (Hsame : left_anchor (tick s1) = left_anchor s) by congruence.
      rewrite Hsame in Hbefore, Hafter.
      exists ((s1, tick s1) :: before), after.
      split; [cbn [app]; now rewrite Hsplit|].
      split; [|exact Hafter].
      constructor; [|exact Hbefore].
      repeat split; cbn [fst snd]; assumption.
Qed.

Lemma last_cons {A : Type} (a d : A) (l : list A) :
  last (a :: l) d = last l a.
Proof.
  revert a d. induction l as [|b l IH]; intros a d; [reflexivity|].
  change (last (a :: b :: l) d) with (last (b :: l) d).
  rewrite !IH. reflexivity.
Qed.

(** [run] ends in the instance at the end of the last turn logged. *)
Lemma run_turn_log (turns : list (list Event)) (s : App) :
  run turns s = (log <- turn_log turns s ;; Ok (last (map snd log) s)).
Proof.
  revert s. induction turns as [|events rest IH]; intros s;
    [reflexivity|].
  cbn [run turn_log]. destruct (running s); [|reflexivity].
  unfold frame.
  destruct (_process_events events s) as [s1|]; [|reflexivity].
  cbn [bind]. rewrite IH.
  destruct (turn_log rest (tick s1)) as [log|]; [|reflexivity].
  cbn [bind map snd]. now rewrite last_cons.
Qed.

(** C4.  In a run that starts with the impulse pending and has no [i] and
    no [r] key press, the turns whose elapsed time is below the trigger time
    leave the left anchor where it is; the first turn whose elapsed time
    reaches the trigger time lifts the anchor by the lift amount, once; and
    every later turn leaves it where the lift put it. *)
Theorem C4_timed_impulse_fires_once (turns : list (list Event)) (s : App) :
  reachable s -> impulse_applied s = false -> automatic turns = true ->
  exists log,
    turn_log turns s = Ok log
    /\ run turns s = Ok (last (map snd log) s)
    /\ lifts_once (left_anchor s) log.
Proof.
  intros Hr Hp Hauto.
  destruct (pending_run_lifts_once turns Hr Hp Hauto) as [log [Hlog Hl]].
  exists log. split; [exact Hlog|]. split; [|exact Hl].
  rewrite run_turn_log, Hlog. reflexivity.
Qed.

(** On the initial instance, fifteen turns without events accumulate
    0.24999999999999997 s, just below the trigger time of 0.25 s, so the
    sixteenth turn fires the impulse. *)
Lemma C4_timed_impulse_fires_once_witness :
  timer_after 15 = Ok (0.24999999999999997%float, false)
  /\ timer_after 16 = Ok (0.26666666666666666%float, true)
  /\ exists log,
       turn_log (repeat [] 20) initial_app = Ok log
       /\ run (repeat [] 20) initial_app = Ok (last (map snd log) initial_app)
       /\ lifts_once (left_anchor initial_app) log.
Proof.
  split; [vm_compute; reflexivity|].
  split; [vm_compute; reflexivity|].
  apply (C4_timed_impulse_fires_once (repeat [] 20) reach_init);
    reflexivity.
Defined.

(** ** Reset *)

Lemma reachable_triggered : reachable triggered_app.
Proof.
  apply (@reach_event initial_app (KEYDOWN K_i));
    [apply reach_init | reflexivity].
Qed.

(** C5.  Whatever happened before, [_reset_sim] succeeds and leaves a chain
    of [N_MASSES] bodies and [N_MASSES + 1] springs in which every body is
    where [__init__] put it and at rest, the left anchor is back at its base
    position, the impulse is pending and the elapsed time is zero. *)
Theorem C5_reset_restores_construction_state (s : App) :
  reachable s ->
  exists r,
    _reset_sim s = Ok r
    /\ length (bodies r) = N_MASSES
    /\ length (springs r) = N_MASSES + 1
    /\ bodies r = bodies initial_app
    /\ Forall (fun b => velocity b = vzero) (bodies r)
    /\ springs r = springs initial_app
    /\ left_anchor r = left_anchor initial_app
    /\ position (left_anchor r) = left_anchor_base r
    /\ impulse_applied r = false
    /\ time_accum r = 0%float.
Proof.
  intros Hr. pose proof (reachable_well_formed Hr) as Hwf.
  exists (after_reset (gravity (space s)) s).
  split; [apply reset_ok, (wf_gravity Hwf)|].
  split; [cbn [after_reset with_impulse_applied with_time_accum built
               bodies]; now rewrite length_map, length_seq|].
  split; [apply chain_springs_length, N_MASSES_pos|].
  split; [reflexivity|].
  split; [|repeat split].
  cbn [after_reset with_impulse_applied with_time_accum built bodies].
  apply Forall_forall. intros b Hb. apply in_map_iff in Hb.
  destruct Hb as [i [<- _]]. reflexivity.
Qed.

Lemma C5_reset_restores_construction_state_witness :
  exists r,
    _reset_sim triggered_app = Ok r
    /\ length (bodies r) = N_MASSES
    /\ length (springs r) = N_MASSES + 1
    /\ bodies r = bodies initial_app
    /\ Forall (fun b => velocity b = vzero) (bodies r)
    /\ springs r = springs initial_app
    /\ left_anchor r = left_anchor initial_app
    /\ position (left_anchor r) = left_anchor_base r
    /\ impulse_applied r = false
    /\ time_accum r = 0%float.
Proof.
  apply (C5_reset_restores_construction_state (s := triggered_app)).
  exact reachable_triggered.
Defined.

(** ** The anchors *)

(** C6.  A physics step leaves both anchors as they are: the left anchor,
    a kinematic body, and the space's static body, to which the wall end of
    the last spring is attached at [right_anchor_pos].  Besides, the left
    anchor is moved by nothing but the impulse (from the [i] key or from
    the timed check) and a reset, which rebuilds it. *)
Theorem C6_anchors_immune_to_forces (s : App) :
  reachable s ->
  (forall d,
      position (left_anchor (Integrator.step d s))
      = position (left_anchor s)
      /\ position (static_body (space (Integrator.step d s)))
         = position (static_body (space s))
      /\ right_anchor_pos (Integrator.step d s) = right_anchor_pos s
      /\ anchors (Integrator.step d s) = anchors s)
  /\ anchors (physics s) = anchors s
  /\ (forall e s',
        manual e = false -> handle_event e s = Ok s' ->
        left_anchor s' = left_anchor s)
  /\ (left_anchor (timed_impulse s) = left_anchor s
      \/ impulse_applied s = false
         /\ reaches_trigger s = true
         /\ position (left_anchor (timed_impulse s))
            = lifted (anchor_lift_m s) (position (left_anchor s))).
Proof.
  intros Hr. pose proof (reachable_well_formed Hr) as Hwf.
  split; [|split; [|split]].
  - intros d.
    pose proof (step_anchors d s (wf_left Hwf) (wf_wall Hwf)) as Ha.
    pose proof (step_topology d s) as Ht.
    split; [|split; [|split]]; try exact Ha.
    + frame_eqs Ha. congruence.
    + frame_eqs Ha. congruence.
    + frame_eqs Ht. congruence.
  - apply physics_anchors; [exact (wf_left Hwf) | exact (wf_wall Hwf)].
  - intros e s' Hm He.
    destruct (automatic_event e s Hm) as [s1 [H1 [Hl _]]]. congruence.
  - destruct (impulse_applied s) eqn:Ea.
    + left. now rewrite timed_impulse_applied.
    + destruct (reaches_trigger s) eqn:Et.
      * right. repeat split.
        rewrite timed_impulse_fires by assumption.
        apply (impulse_effect (with_time_accum (elapsed_after_tick s) s)).
      * left. now rewrite timed_impulse_below.
Qed.

Lemma C6_anchors_immune_to_forces_witness :
  (forall d,
      position (left_anchor (Integrator.step d initial_app))
      = position (left_anchor initial_app)
      /\ position (static_body (space (Integrator.step d initial_app)))
         = position (static_body (space initial_app))
      /\ right_anchor_pos (Integrator.step d initial_app)
         = right_anchor_pos initial_app
      /\ anchors (Integrator.step d initial_app) = anchors initial_app)
  /\ anchors (physics initial_app) = anchors initial_app
  /\ (forall e s',
        manual e = false -> handle_event e initial_app = Ok s' ->
        left_anchor s' = left_anchor initial_app)
  /\ (left_anchor (timed_impulse initial_app) = left_anchor initial_app
      \/ impulse_applied initial_app = false
         /\ reaches_trigger initial_app = true
         /\ position (left_anchor (timed_impulse initial_app))
            = lifted (anchor_lift_m initial_app)
                (position (left_anchor initial_app))).
Proof.
  apply (C6_anchors_immune_to_forces reach_init).
Defined.

(** ** The tunable parameters *)

Lemma damping_values_clamped (d : float) :
  In d damping_values ->
  in_unit_interval (damping_down d) = true
  /\ in_unit_interval (damping_up d) = true.
Proof.
  intros Hd.
  assert (H : forallb
                (fun d => in_unit_interval (damping_down d)
                          && in_unit_interval (damping_up d))
                damping_values = true) by (vm_compute; reflexivity).
  rewrite forallb_forall in H. apply andb_true_iff. now apply H.
Qed.

Lemma lift_values_clamped (l : float) :
  In l lift_values ->
  between 0 2.0 (lift_down l) = true /\ between 0 2.0 (lift_up l) = true.
Proof.
  intros Hl.
  assert (H : forallb
                (fun l => between 0 2.0 (lift_down l)
                          && between 0 2.0 (lift_up l))
                lift_values = true) by (vm_compute; reflexivity).
  rewrite forallb_forall in H. apply andb_true_iff. now apply H.
Qed.

Lemma time_values_clamped (t : float) :
  In t time_values ->
  between 0 5.0 (time_down t) = true /\ between 0 5.0 (time_up t) = true.
Proof.
  intros Ht.
  assert (H : forallb
                (fun t => between 0 5.0 (time_down t)
                          && between 0 5.0 (time_up t))
                time_values = true) by (vm_compute; reflexivity).
  rewrite forallb_forall in H. apply andb_true_iff. now apply H.
Qed.

(** C7.  In every state of a run, the two damping keys leave a damping
    factor in [0, 1), which is also the damping of the space; the two lift
    keys leave a lift amount in [0, 2.0] m; the two trigger-time keys leave
    a trigger time in [0, 5.0] s. *)
Theorem C7_parameter_commands_clamp (s : App) :
  reachable s ->
  (forall k, k = K_1 \/ k = K_2 ->
     exists s',
       handle_event (KEYDOWN k) s = Ok s'
       /\ (0 <=? damping s')%float = true
       /\ (damping s' <? 1)%float = true
       /\ space_damping (space s') = damping s')
  /\ (forall k, k = K_3 \/ k = K_4 ->
        exists s',
          handle_event (KEYDOWN k) s = Ok s'
          /\ (0 <=? anchor_lift_m s')%float = true
          /\ (anchor_lift_m s' <=? 2.0)%float = true)
  /\ (forall k, k = K_5 \/ k = K_6 ->
        exists s',
          handle_event (KEYDOWN k) s = Ok s'
          /\ (0 <=? impulse_time_s s')%float = true
          /\ (impulse_time_s s' <=? 5.0)%float = true).
Proof.
  intros Hr. pose proof (reachable_well_formed Hr) as Hwf.
  destruct (damping_values_clamped (wf_damping Hwf)) as [Hd1 Hd2].
  destruct (lift_values_clamped (wf_lift Hwf)) as [Hl1 Hl2].
  destruct (time_values_clamped (wf_time Hwf)) as [Ht1 Ht2].
  unfold in_unit_interval in Hd1, Hd2. unfold between in Hl1, Hl2, Ht1, Ht2.
  apply andb_true_iff in Hd1, Hd2, Hl1, Hl2, Ht1, Ht2.
  split; [|split]; intros k [-> | ->];
    (eexists; split; [reflexivity|]); cbn -[PrimFloat.leb PrimFloat.ltb];
    tauto.
Qed.

Lemma C7_parameter_commands_clamp_witness :
  (forall k, k = K_1 \/ k = K_2 ->
     exists s',
       handle_event (KEYDOWN k) initial_app = Ok s'
       /\ (0 <=? damping s')%float = true
       /\ (damping s' <? 1)%float = true
       /\ space_damping (space s') = damping s')
  /\ (forall k, k = K_3 \/ k = K_4 ->
        exists s',
          handle_event (KEYDOWN k) initial_app = Ok s'
          /\ (0 <=? anchor_lift_m s')%float = true
          /\ (anchor_lift_m s' <=? 2.0)%float = true)
  /\ (forall k, k = K_5 \/ k = K_6 ->
        exists s',
          handle_event (KEYDOWN k) initial_app = Ok s'
          /\ (0 <=? impulse_time_s s')%float = true
          /\ (impulse_time_s s' <=? 5.0)%float = true).
Proof.
  apply (C7_parameter_commands_clamp reach_init).
Defined.

(** ** The chain at rest after construction *)

(** C9.  In the instance [__init__] returns, the left anchor is at
    [start_x], body [i] at [start_x + (i + 1) * span] and the wall at
    [start_x + (N_MASSES + 1) * span], all at the same height, where [span]
    is [LV_M] in pixels, 6; each of the [N_MASSES + 1] springs is drawn 6
    pixels long and has a rest length of [L0_M] in pixels, 5; so each starts
    stretched by one pixel, 0.02 m. *)
Theorem C9_initial_pretension :
  __init__ = Ok initial_app
  /\ m_to_px LV_M = 6%float
  /\ m_to_px L0_M = 5%float
  /\ position (left_anchor initial_app) = (start_x, baseline_y)
  /\ map position (bodies initial_app)
     = map (fun i =>
              ((start_x + float_of_nat (i + 1) * m_to_px LV_M)%float,
               baseline_y))
           (seq 0 N_MASSES)
  /\ right_anchor_pos initial_app
     = ((start_x + float_of_nat (N_MASSES + 1) * m_to_px LV_M)%float,
        baseline_y)
  /\ map rest_length (springs initial_app) = repeat 5%float (N_MASSES + 1)
  /\ exists lines,
       spring_lines initial_app = Ok lines
       /\ map line_length lines = repeat 6%float (N_MASSES + 1)
       /\ map (fun l => ((line_length l - m_to_px L0_M)
                         / PIXELS_PER_METER)%float) lines
          = repeat 0.02%float (N_MASSES + 1)
       /\ forallb (fun l => (m_to_px L0_M <? line_length l)%float) lines
          = true.
Proof.
  split; [exact init_ok|].
  split; [reflexivity|]. split; [reflexivity|].
  split; [reflexivity|].
  split; [vm_compute; reflexivity|].
  split; [vm_compute; reflexivity|].
  split; [vm_compute; reflexivity|].
  eexists. split; [vm_compute; reflexivity|].
  split; [vm_compute; reflexivity|].
  split; vm_compute; reflexivity.
Qed.

(** ** Gravity *)

Lemma gravity_presets_differ : gravity_on <> gravity_off.
Proof.
  intros H.
  apply (f_equal (fun g : Vec2d => PrimFloat.eqb (snd g) 0)) in H.
  vm_compute in H. discriminate.
Qed.

Lemma gravity_index_cases (s : App) :
  well_formed s ->
  gravity_index s = 0 /\ gravity (space s) = gravity_off
  \/ gravity_index s = 1 /\ gravity (space s) = gravity_on.
Proof.
  intros Hwf. pose proof (wf_gravity Hwf) as Hg.
  destruct (gravity_index s) as [|[|i]]; cbn [nth_error gravity_presets] in Hg.
  - left. injection Hg as Hg. split; [reflexivity | symmetry; exact Hg].
  - right. injection Hg as Hg. split; [reflexivity | symmetry; exact Hg].
  - destruct i; discriminate.
Qed.

(** C10.  In every state of a run the gravity of the space is one of the
    two presets, no gravity or 9.81 m/s^2 downwards in pixels; the [g] key
    switches from either to the other, a reset keeps the one selected, and
    no other event and no turn of the loop changes it. *)
Theorem C10_gravity_is_a_preset (s : App) :
  reachable s ->
  (gravity (space s) = gravity_off \/ gravity (space s) = gravity_on)
  /\ (exists s',
        handle_event (KEYDOWN K_g) s = Ok s'
        /\ (gravity (space s) = gravity_off ->
            gravity (space s') = gravity_on)
        /\ (gravity (space s) = gravity_on ->
            gravity (space s') = gravity_off))
  /\ (exists r,
        _reset_sim s = Ok r /\ gravity (space r) = gravity (space s))
  /\ (forall e s',
        e <> KEYDOWN K_g -> handle_event e s = Ok s' ->
        gravity (space s') = gravity (space s))
  /\ gravity (space (tick s)) = gravity (space s).
Proof.
  intros Hr. pose proof (reachable_well_formed Hr) as Hwf.
  pose proof gravity_presets_differ as Hne.
  split; [|split; [|split; [|split]]].
  - destruct (gravity_index_cases Hwf) as [[_ H] | [_ H]]; auto.
  - destruct (toggle_ok s) as [g [Hg Hk]].
    eexists. split; [exact Hk|].
    cbn [space with_space with_gravity_index space_with_gravity gravity].
    destruct (gravity_index_cases Hwf) as [[Hi H] | [Hi H]];
      rewrite Hi in Hg; cbn in Hg; injection Hg as <-; rewrite H;
      split; intros E; try reflexivity.
    + symmetry in E. contradiction.
    + contradiction.
  - exists (after_reset (gravity (space s)) s).
    split; [apply reset_ok, (wf_gravity Hwf) | reflexivity].
  - intros e s' He H. destruct e as [|k|]; cbn [handle_event] in H.
    + now injection H as <-.
    + destruct k; try congruence; cbn [handle_key] in H;
        try (injection H as <-; reflexivity).
      * destruct (impulse_effect s) as [_ [_ [_ [_ Hsp]]]].
        destruct (negb (impulse_applied s)); injection H as <-;
          [now rewrite Hsp | reflexivity].
      * rewrite (reset_ok _ (wf_gravity Hwf)) in H. now injection H as <-.
    + now injection H as <-.
  - unfold tick.
    pose proof (physics_space_settings (timed_impulse s)) as Hs.
    frame_eqs Hs.
    assert (Hi : space (timed_impulse s) = space s).
    { unfold timed_impulse. destruct (negb (impulse_applied s));
        [|reflexivity].
      match goal with |- space (if ?c then _ else _) = _ => destruct c end;
        [|reflexivity].
      match goal with
      | |- space (_apply_first_spring_impulse ?a) = _ =>
          destruct (impulse_effect a) as [_ [_ [_ [_ Hsp]]]]
      end.
      exact Hsp. }
    congruence.
Qed.

Lemma C10_gravity_is_a_preset_witness :
  (gravity (space initial_app) = gravity_off
   \/ gravity (space initial_app) = gravity_on)
  /\ (exists s',
        handle_event (KEYDOWN K_g) initial_app = Ok s'
        /\ (gravity (space initial_app) = gravity_off ->
            gravity (space s') = gravity_on)
        /\ (gravity (space initial_app) = gravity_on ->
            gravity (space s') = gravity_off))
  /\ (exists r,
        _reset_sim initial_app = Ok r
        /\ gravity (space r) = gravity (space initial_app))
  /\ (forall e s',
        e <> KEYDOWN K_g -> handle_event e initial_app = Ok s' ->
        gravity (space s') = gravity (space initial_app))
  /\ gravity (space (tick initial_app)) = gravity (space initial_app).
Proof.
  apply (C10_gravity_is_a_preset reach_init).
Defined.

(** * Further properties *)

(** ** The builder at its edge *)

Lemma build_chain_empty (self : App) :
  fresh self -> build_chain 0 self = IndexError.
Proof.
  intros [Hb [Hsh Hsp]].
  destruct self as [sp gi dm it al d ps bd sh sg la lb ra rp ws rn ta ia].
  simpl in Hb, Hsh, Hsp. subst bd sh sg. reflexivity.
Qed.

(** X1.  On an instance whose lists are empty, a build of [n] masses
    succeeds exactly when there is at least one mass: with none, the
    subscript [self.bodies[0]] raises [IndexError]. *)
Theorem build_chain_needs_a_mass (n : nat) (self : App) :
  fresh self ->
  (build_chain 0 self = IndexError)
  /\ ((exists chain, build_chain n self = Ok chain) <-> 1 <= n).
Proof.
  intros Hf. split; [now apply build_chain_empty|].
  split.
  - intros [chain H]. destruct n; [|lia].
    rewrite build_chain_empty in H by assumption. discriminate.
  - intros Hn. exists (built n self). destruct Hf as [Hb [Hsh Hsp]].
    now apply build_chain_built.
Qed.

Lemma build_chain_needs_a_mass_witness :
  (build_chain 0 before_first_build = IndexError)
  /\ ((exists chain, build_chain 3 before_first_build = Ok chain)
      <-> 1 <= 3).
Proof.
  apply (build_chain_needs_a_mass 3 (self := before_first_build)).
  repeat split.
Defined.

(** ** No subscript fails *)

Lemma handle_event_ok (e : Event) (s : App) :
  well_formed s -> exists s', handle_event e s = Ok s'.
Proof.
  intros Hwf. destruct e as [|k|]; try (eexists; reflexivity).
  destruct k; try (eexists; reflexivity).
  - destruct (toggle_ok s) as [g [_ Hk]]. eexists. exact Hk.
  - cbn [handle_event handle_key].
    destruct (negb (impulse_applied s)); eexists; reflexivity.
  - eexists. cbn [handle_event handle_key].
    apply reset_ok, (wf_gravity Hwf).
Qed.

Lemma process_events_ok (events : list Event) (s : App) :
  reachable s ->
  exists s', _process_events events s = Ok s' /\ reachable s'.
Proof.
  revert s. induction events as [|e rest IH]; intros s Hr.
  - exists s. split; [reflexivity | assumption].
  - destruct (handle_event_ok e (reachable_well_formed Hr)) as [s1 H1].
    destruct (IH s1 (@reach_event s e s1 Hr H1)) as [s2 [H2 Hr2]].
    exists s2. cbn [_process_events]. rewrite H1. cbn [bind].
    split; assumption.
Qed.

Lemma run_ok (turns : list (list Event)) (s : App) :
  reachable s -> exists s', run turns s = Ok s' /\ reachable s'.
Proof.
  revert s. induction turns as [|events rest IH]; intros s Hr.
  - exists s. split; [reflexivity | assumption].
  - cbn [run]. destruct (running s).
    2: { exists s. split; [reflexivity | assumption]. }
    destruct (process_events_ok events Hr) as [s1 [H1 Hr1]].
    unfold frame. rewrite H1. cbn [bind].
    apply IH. now apply reachable_tick.
Qed.

(** X2.  Whatever events arrive, in whatever turns, the program builds its
    chain and runs without any list subscript raising [IndexError]: not
    [self.bodies[0]] or [self.bodies[-1]] in a rebuild, and not
    [self.gravity_presets[self.gravity_index]]. *)
Theorem main_never_raises (turns : list (list Event)) :
  exists app, main turns = Ok app /\ reachable app.
Proof.
  unfold main. rewrite init_ok. cbn [bind].
  apply run_ok, reach_init.
Qed.

(** ** The drawn springs *)

Lemma getitem_nth {A : Type} (l : list A) (i : nat) (d : A) :
  i < length l -> getitem l (Z.of_nat i) = Ok (nth i l d).
Proof.
  intros Hi. apply getitem_nat. now apply nth_error_nth'.
Qed.

Lemma getitem_first {A : Type} (l : list A) (d : A) :
  1 <= length l -> getitem l 0 = Ok (nth 0 l d).
Proof.
  intros Hl. exact (@getitem_nth A l 0 d Hl).
Qed.

Lemma getitem_pred {A : Type} (l : list A) (i : nat) (d : A) :
  1 <= i -> i <= length l ->
  getitem l (Z.of_nat i - 1) = Ok (nth (i - 1) l d).
Proof.
  intros H1 Hi.
  replace (Z.of_nat i - 1)%Z with (Z.of_nat (i - 1)) by lia.
  apply getitem_nth. lia.
Qed.

Lemma getitem_last {A : Type} (l : list A) (d : A) :
  1 <= length l -> getitem l (-1) = Ok (nth (length l - 1) l d).
Proof.
  intros Hl. unfold getitem. rewrite subscript_last by assumption.
  cbn [bind]. rewrite (nth_error_nth' l d) by lia. reflexivity.
Qed.

Lemma firstn_snoc {A : Type} (l : list A) (k : nat) (d : A) :
  k < length l -> firstn (S k) l = firstn k l ++ [nth k l d].
Proof.
  revert k. induction l as [|a l IH]; intros k Hk; [simpl in Hk; lia|].
  destruct k as [|k]; [reflexivity|].
  simpl in Hk. cbn [firstn nth app]. f_equal. apply IH. lia.
Qed.

Lemma combine_snoc {A B : Type} (la : list A) (lb : list B) (a : A) (b : B) :
  length la = length lb ->
  combine (la ++ [a]) (lb ++ [b]) = combine la lb ++ [(a, b)].
Proof.
  revert lb. induction la as [|x la IH]; intros [|y lb] H;
    try discriminate; [reflexivity|].
  cbn [app combine]. f_equal. apply IH. now injection H.
Qed.

Lemma combine_longer {A B : Type} (la lc : list A) (lb : list B) :
  length la = length lb -> combine (la ++ lc) lb = combine la lb.
Proof.
  revert lb. induction la as [|x la IH]; intros [|y lb] H;
    try discriminate.
  - now destruct lc.
  - cbn [app combine]. f_equal. apply IH. now injection H.
Qed.

(** The loop of [_draw] that joins neighbouring masses. *)
Lemma draw_inner_loop (s : App) (p0 : Vec2d) (d : Body) (m : nat) :
  m + 1 <= length (bodies s) ->
  for_range_m 1 m (draw_inner_line s)
    [(p0, position (nth 0 (bodies s) d))]
  = Ok (combine (p0 :: firstn m (map position (bodies s)))
          (firstn (S m) (map position (bodies s)))).
Proof.
  induction m as [|m IH]; intros Hlen.
  - destruct (bodies s) as [|b B]; [simpl in Hlen; lia | reflexivity].
  - rewrite for_range_m_S, IH by lia. cbn [bind].
    unfold draw_inner_line.
    rewrite (getitem_pred (bodies s) d) by lia.
    rewrite (getitem_nth (bodies s) d) by lia. cbn [bind].
    replace (1 + m - 1) with m by lia. f_equal.
    set (P := map position (bodies s)).
    assert (HP : length P = length (bodies s))
      by (unfold P; now rewrite length_map).
    pose proof (@firstn_snoc _ P m (position d)) as E1.
    pose proof (@firstn_snoc _ P (S m) (position d)) as E2.
    rewrite E2 by lia.
    set (F := firstn (S m) P) in *.
    replace (p0 :: F)
      with ((p0 :: firstn m P) ++ [nth m P (position d)])
      by (rewrite E1 by lia; reflexivity).
    rewrite combine_snoc.
    + unfold P. now rewrite !map_nth.
    + cbn [length]. unfold F. rewrite !length_firstn. lia.
Qed.

Lemma polyline_segments {A : Type} (p0 w d : A) (P : list A) (n : nat) :
  length P = S n ->
  combine (p0 :: firstn n P) (firstn (S n) P) ++ [(nth n P d, w)]
  = combine (p0 :: P ++ [w]) (tl (p0 :: P ++ [w])).
Proof.
  intros HP. cbn [tl].
  rewrite app_comm_cons, combine_longer
    by (cbn [length]; rewrite length_app; cbn [length]; lia).
  assert (Hall : firstn (S n) P = P) by (rewrite <- HP; apply firstn_all).
  assert (Hs : P = firstn n P ++ [nth n P d])
    by (rewrite <- firstn_snoc by lia; symmetry; exact Hall).
  rewrite Hall.
  assert (Hq : length (firstn n P) = n) by (rewrite length_firstn; lia).
  set (Q := firstn n P) in *. set (x := nth n P d) in *.
  clearbody Q x. subst P.
  rewrite (app_comm_cons Q [x] p0), combine_snoc; [reflexivity|].
  cbn [length]. rewrite length_app. cbn [length]. lia.
Qed.

Lemma spring_lines_polyline (s : App) :
  length (bodies s) = N_MASSES ->
  spring_lines s = Ok (combine (polyline s) (tl (polyline s))).
Proof.
  intros Hlen. pose proof N_MASSES_pos as Hn.
  set (d := new_body STATIC 0).
  unfold spring_lines. cbv zeta.
  rewrite (getitem_first (bodies s) d) by lia. cbn [bind].
  rewrite (@draw_inner_loop s _ d) by lia. cbn [bind].
  rewrite (getitem_last (bodies s) d) by lia. cbn [bind]. f_equal.
  rewrite Hlen, <- map_nth.
  apply polyline_segments. rewrite length_map. lia.
Qed.

(** X3.  In every state of a run, [_draw] finds both ends of every spring
    without a subscript failing, and the [N_MASSES + 1] segments it draws
    form one unbroken line: each joins a point of the sequence left anchor,
    masses in order, wall to the next point.  The line ends at the wall
    position fixed at construction. *)
Theorem drawn_springs_form_one_line (s : App) :
  reachable s ->
  spring_lines s = Ok (combine (polyline s) (tl (polyline s)))
  /\ length (combine (polyline s) (tl (polyline s))) = N_MASSES + 1
  /\ hd vzero (polyline s) = position (left_anchor s)
  /\ last (polyline s) vzero = (1006, 300)%float.
Proof.
  intros Hr. pose proof (reachable_well_formed Hr) as Hwf.
  pose proof (wf_bodies Hwf) as Hlen.
  split; [now apply spring_lines_polyline|].
  split; [|split; [reflexivity|]].
  - unfold polyline. cbn [tl].
    rewrite length_combine. cbn [length].
    rewrite length_app, length_map. cbn [length]. lia.
  - unfold polyline. rewrite app_comm_cons, last_last.
    rewrite (wf_wall_pos Hwf). vm_compute. reflexivity.
Qed.

Lemma drawn_springs_form_one_line_witness :
  spring_lines initial_app
  = Ok (combine (polyline initial_app) (tl (polyline initial_app)))
  /\ length (combine (polyline initial_app) (tl (polyline initial_app)))
     = N_MASSES + 1
  /\ hd vzero (polyline initial_app) = position (left_anchor initial_app)
  /\ last (polyline initial_app) vzero = (1006, 300)%float.
Proof.
  apply (drawn_springs_form_one_line reach_init).
Defined.

(** ** Reset, again *)

Lemma after_reset_retuned (s : App) :
  well_formed s -> after_reset (gravity (space s)) s = retuned s.
Proof.
  intros Hwf. pose proof (wf_dt Hwf) as Hdt.
  pose proof (wf_steps Hwf) as Hst.
  destruct s as [sp gi dm it al d ps bd sh sg la lb ra rp ws rn ta ia].
  cbn [dt physics_steps_per_frame] in Hdt, Hst. subst d ps.
  reflexivity.
Qed.

Lemma reset_returns_retuned (s : App) :
  reachable s -> _reset_sim s = Ok (retuned s).
Proof.
  intros Hr. pose proof (reachable_well_formed Hr) as Hwf.
  rewrite (reset_ok _ (wf_gravity Hwf)).
  now rewrite after_reset_retuned.
Qed.

(** X4.  A reset in any state of a run returns the instance [__init__]
    returned, except for what the keys have tuned: the selected gravity, the
    damping (of the instance and of the space), the trigger time, the lift
    amount, and the run flag are those before the reset.  So a reset forgets
    all motion and keeps all settings. *)
Theorem reset_keeps_only_the_settings (s : App) :
  reachable s -> _reset_sim s = Ok (retuned s).
Proof.
  intros Hr. now apply reset_returns_retuned.
Qed.

Lemma reset_keeps_only_the_settings_witness :
  _reset_sim triggered_app = Ok (retuned triggered_app)
  /\ retuned triggered_app = initial_app.
Proof.
  split; [|reflexivity].
  apply (reset_keeps_only_the_settings reachable_triggered).
Defined.

Lemma retuned_retuned (s : App) : retuned (retuned s) = retuned s.
Proof. reflexivity. Qed.

(** X5.  Resetting twice is resetting once: in any state of a run, a reset
    of the instance a reset returned returns that same instance. *)
Theorem reset_is_idempotent (s r : App) :
  reachable s -> _reset_sim s = Ok r -> _reset_sim r = Ok r.
Proof.
  intros Hr H.
  assert (Hrr : reachable r)
    by (apply (@reach_event s (KEYDOWN K_r) r); assumption).
  rewrite (reset_returns_retuned Hr) in H. injection H as <-.
  rewrite (reset_returns_retuned Hrr).
  now rewrite retuned_retuned.
Qed.

Lemma reset_is_idempotent_witness :
  _reset_sim initial_app = Ok initial_app.
Proof.
  apply (reset_is_idempotent (s := triggered_app) reachable_triggered).
  apply (reset_returns_retuned reachable_triggered).
Defined.

(** ** Gravity, again *)

(** X6.  In any state of a run, pressing [g] twice restores the instance
    exactly: the gravity of the space and the selected preset are back, and
    nothing else was touched. *)
Theorem gravity_toggle_twice_is_identity (s : App) :
  reachable s ->
  exists s1,
    handle_event (KEYDOWN K_g) s = Ok s1
    /\ gravity (space s1) <> gravity (space s)
    /\ handle_event (KEYDOWN K_g) s1 = Ok s.
Proof.
  intros Hr. pose proof (reachable_well_formed Hr) as Hwf.
  destruct (toggle_ok s) as [g [Hg Hk]].
  eexists. split; [exact Hk|].
  pose proof gravity_presets_differ as Hne.
  destruct s as [sp gi dm it al d ps bd sh sg la lb ra rp ws rn ta ia].
  destruct sp as [gr sd sb sbs sshs scs].
  destruct (gravity_index_cases Hwf) as [[Hi Hgr] | [Hi Hgr]];
    cbn [gravity_index space gravity] in Hi, Hgr, Hg; subst gi gr;
    cbn in Hg; injection Hg as <-.
  - split; [exact Hne | reflexivity].
  - split; [intros E; symmetry in E; contradiction | reflexivity].
Qed.

Lemma gravity_toggle_twice_is_identity_witness :
  exists s1,
    handle_event (KEYDOWN K_g) initial_app = Ok s1
    /\ gravity (space s1) <> gravity (space initial_app)
    /\ handle_event (KEYDOWN K_g) s1 = Ok initial_app.
Proof.
  apply (gravity_toggle_twice_is_identity reach_init).
Defined.

(** ** Quitting *)

(** Whatever [_reset_sim] returns was rebuilt from the selected preset. *)
Lemma reset_shape (s r : App) :
  _reset_sim s = Ok r -> exists g, r = after_reset g s.
Proof.
  intros H.
  destruct (getitem gravity_presets (Z.of_nat (gravity_index s)))
    as [g|] eqn:E.
  - exists g.
    assert (H2 : _reset_sim s = Ok (after_reset g s)).
    { unfold _reset_sim. cbv zeta.
      change (gravity_index (with_space new_space s))
        with (gravity_index s).
      rewrite E. cbn [bind]. unfold _build_chain.
      rewrite build_chain_built;
        [reflexivity | apply N_MASSES_pos | | | ]; reflexivity. }
    congruence.
  - unfold _reset_sim in H. cbv zeta in H.
    change (gravity_index (with_space new_space s))
      with (gravity_index s) in H.
    rewrite E in H. discriminate.
Qed.

Lemma reset_running (s r : App) :
  _reset_sim s = Ok r -> running r = running s.
Proof.
  intros H. destruct (reset_shape _ H) as [g ->]. reflexivity.
Qed.

(** What an event makes of the run flag. *)
Lemma handle_event_running (e : Event) (s s' : App) :
  handle_event e s = Ok s' -> running s' = running s && negb (quits e).
Proof.
  intros H. destruct e as [|k|]; cbn [handle_event] in H.
  - injection H as <-. cbn [quits negb]. now rewrite andb_false_r.
  - destruct k; cbn [quits negb]; rewrite ?andb_true_r, ?andb_false_r;
      try (cbn [handle_key] in H; injection H as <-; reflexivity).
    + destruct (toggle_ok s) as [g [_ Hk]].
      rewrite Hk in H. now injection H as <-.
    + cbn [handle_key] in H.
      destruct (negb (impulse_applied s)); injection H as <-;
        [|reflexivity].
      pose proof (impulse_effect s) as [_ [_ [Hc _]]]. frame_eqs Hc.
      assumption.
    + now apply reset_running.
  - injection H as <-. cbn [quits negb]. now rewrite andb_true_r.
Qed.

Lemma process_events_running (events : list Event) (s s' : App) :
  _process_events events s = Ok s' ->
  running s' = running s && negb (existsb quits events).
Proof.
  revert s. induction events as [|e rest IH]; intros s H.
  - injection H as <-. cbn. now rewrite andb_true_r.
  - cbn [_process_events] in H. apply bind_Ok in H.
    destruct H as [s1 [H1 H]].
    rewrite (IH _ H), (handle_event_running _ _ H1).
    cbn [existsb]. rewrite negb_orb. now rewrite andb_assoc.
Qed.

Lemma timed_impulse_controller (s : App) :
  running (timed_impulse s) = running s
  /\ dt (timed_impulse s) = dt s
  /\ physics_steps_per_frame (timed_impulse s) = physics_steps_per_frame s
  /\ impulse_time_s (timed_impulse s) = impulse_time_s s
  /\ anchor_lift_m (timed_impulse s) = anchor_lift_m s.
Proof.
  unfold timed_impulse. destruct (negb (impulse_applied s));
    [|repeat split].
  match goal with |- context [if ?c then _ else _] => destruct c end;
    [|repeat split].
  match goal with
  | |- context [_apply_first_spring_impulse ?a] =>
      pose proof (impulse_effect a) as [_ [_ [Hc _]]]
  end.
  frame_eqs Hc. repeat split; assumption.
Qed.

Lemma tick_running (s : App) : running (tick s) = running s.
Proof.
  unfold tick. pose proof (physics_controller (timed_impulse s)) as Hc.
  frame_eqs Hc. destruct (timed_impulse_controller s) as [Hr _].
  congruence.
Qed.

(** X7.  When a quit request or the escape key arrives in a turn of a
    running loop, the turn is still completed (its other events are handled
    and it takes its time step), the flag [running] is false after it, the
    loop takes no further turn, and no event could set the flag again. *)
Theorem quit_ends_the_loop (events : list Event) (rest : list (list Event))
    (s s' : App) :
  running s = true -> existsb quits events = true ->
  frame events s = Ok s' ->
  running s' = false
  /\ run (events :: rest) s = Ok s'
  /\ (forall e s'', handle_event e s' = Ok s'' -> running s'' = false).
Proof.
  intros Hrun Hq Hf.
  assert (Hoff : running s' = false).
  { unfold frame in Hf. apply bind_Ok in Hf. destruct Hf as [s1 [H1 Hf]].
    injection Hf as <-.
    rewrite tick_running, (process_events_running _ _ H1), Hq.
    apply andb_false_r. }
  split; [exact Hoff|]. split.
  - cbn [run]. rewrite Hrun, Hf. cbn [bind].
    destruct rest; cbn [run]; [reflexivity | now rewrite Hoff].
  - intros e s'' He. rewrite (handle_event_running _ _ He), Hoff.
    reflexivity.
Qed.

Lemma quit_ends_the_loop_witness :
  running closed_app = false
  /\ run ([KEYDOWN K_g; QUIT; KEYDOWN K_g] :: [[KEYDOWN K_i]; []])
       initial_app
     = Ok closed_app
  /\ (forall e s'', handle_event e closed_app = Ok s'' ->
      running s'' = false).
Proof.
  apply (@quit_ends_the_loop [KEYDOWN K_g; QUIT; KEYDOWN K_g]
           [[KEYDOWN K_i]; []] initial_app closed_app);
    vm_compute; reflexivity.
Defined.

(** ** After the impulse *)

Lemma applied_event (e : Event) (s : App) :
  impulse_applied s = true -> resets e = false ->
  exists s',
    handle_event e s = Ok s'
    /\ left_anchor s' = left_anchor s
    /\ impulse_applied s' = true
    /\ time_accum s' = time_accum s.
Proof.
  intros Ha Hres. destruct (manual e) eqn:Hm.
  - destruct e as [|k|]; try discriminate Hm.
    destruct k; try discriminate Hm; try discriminate Hres.
    exists s. cbn [handle_event handle_key]. rewrite Ha. cbn [negb].
    repeat split.
  - destruct (automatic_event e s Hm) as [s' [H [Hl [Hi Ht]]]].
    exists s'. repeat split; congruence.
Qed.

Lemma applied_events (events : list Event) (s : App) :
  impulse_applied s = true ->
  forallb (fun e => negb (resets e)) events = true ->
  exists s',
    _process_events events s = Ok s'
    /\ left_anchor s' = left_anchor s
    /\ impulse_applied s' = true
    /\ time_accum s' = time_accum s.
Proof.
  revert s. induction events as [|e rest IH]; intros s Ha Hres.
  - exists s. repeat split. assumption.
  - cbn [forallb] in Hres. apply andb_true_iff in Hres.
    destruct Hres as [He Hrest]. apply negb_true_iff in He.
    destruct (applied_event e s Ha He) as [s1 [H1 [Hl1 [Hi1 Ht1]]]].
    destruct (IH s1 Hi1 Hrest) as [s2 [H2 [Hl2 [Hi2 Ht2]]]].
    exists s2. cbn [_process_events]. rewrite H1. cbn [bind].
    repeat split; congruence.
Qed.

(** X8.  Once the impulse is applied, nothing but a reset moves the left
    anchor or the elapsed time: through any turns without a reset, with
    whatever other keys (the [i] key and the lift keys included), the anchor
    stays where the impulse put it, the elapsed time stays where it was, and
    the impulse stays applied. *)
Theorem applied_impulse_is_final (turns : list (list Event)) (s : App) :
  reachable s -> impulse_applied s = true -> without_reset turns = true ->
  exists s',
    run turns s = Ok s'
    /\ left_anchor s' = left_anchor s
    /\ impulse_applied s' = true
    /\ time_accum s' = time_accum s.
Proof.
  revert s. induction turns as [|events rest IH]; intros s Hr Ha Hres.
  - exists s. repeat split. assumption.
  - cbn [run]. destruct (running s).
    2: { exists s. repeat split. assumption. }
    unfold without_reset in Hres. cbn [forallb] in Hres.
    apply andb_true_iff in Hres. destruct Hres as [He Hrest].
    destruct (applied_events events s Ha He) as [s1 [H1 [Hl1 [Hi1 Ht1]]]].
    unfold frame. rewrite H1. cbn [bind].
    assert (Hr1 : reachable s1)
      by (eapply reachable_process_events; eassumption).
    destruct (tick_applied (reachable_well_formed Hr1) Hi1)
      as [Hl2 [Hi2 Ht2]].
    destruct (IH (tick s1) (reachable_tick Hr1) Hi2 Hrest)
      as [s' [H' [Hl' [Hi' Ht']]]].
    exists s'. repeat split; congruence.
Qed.

Lemma applied_impulse_is_final_witness :
  exists s',
    run [[KEYDOWN K_i; KEYDOWN K_4]; []; [KEYDOWN K_i]] triggered_app
    = Ok s'
    /\ left_anchor s' = left_anchor triggered_app
    /\ impulse_applied s' = true
    /\ time_accum s' = time_accum triggered_app.
Proof.
  apply (applied_impulse_is_final
           [[KEYDOWN K_i; KEYDOWN K_4]; []; [KEYDOWN K_i]]
           reachable_triggered);
    reflexivity.
Defined.

(** ** Where the left anchor can be *)

Lemma impulse_in_place (s : App) :
  well_formed s -> impulse_applied s = false -> anchor_in_place s ->
  anchor_in_place (_apply_first_spring_impulse s).
Proof.
  intros Hwf Hp Hin. unfold anchor_in_place in *. rewrite Hp in Hin.
  destruct (impulse_effect s) as [Hpos [Hia _]]. rewrite Hia.
  exists (anchor_lift_m s). split; [exact (wf_lift Hwf)|].
  now rewrite Hpos, Hin.
Qed.

Lemma same_anchor_in_place (s s' : App) :
  left_anchor s' = left_anchor s -> impulse_applied s' = impulse_applied s ->
  anchor_in_place s -> anchor_in_place s'.
Proof.
  intros Hl Hi. unfold anchor_in_place. now rewrite Hl, Hi.
Qed.

Lemma reachable_anchor_in_place (s : App) :
  reachable s -> anchor_in_place s.
Proof.
  induction 1 as [|s e s' Hr IH He|s Hr IH|s Hr IH].
  - reflexivity.
  - pose proof (reachable_well_formed Hr) as Hwf.
    destruct (manual e) eqn:Hm.
    + destruct e as [|k|]; try discriminate Hm.
      destruct k; try discriminate Hm; cbn [handle_event handle_key] in He.
      * destruct (impulse_applied s) eqn:Ea; cbn [negb] in He;
          injection He as <-; [exact IH|].
        now apply impulse_in_place.
      * rewrite (reset_ok _ (wf_gravity Hwf)) in He. injection He as <-.
        reflexivity.
    + destruct (automatic_event e s Hm) as [s1 [H1 [Hl [Hi _]]]].
      rewrite H1 in He. injection He as <-.
      now apply (@same_anchor_in_place s s1 Hl Hi).
  - pose proof (reachable_well_formed Hr) as Hwf.
    destruct (impulse_applied s) eqn:Ea.
    + now rewrite timed_impulse_applied.
    + destruct (reaches_trigger s) eqn:Et.
      * rewrite timed_impulse_fires by assumption.
        apply impulse_in_place; [|exact Ea|].
        -- destruct Hwf. constructor; assumption.
        -- apply (@same_anchor_in_place s); [reflexivity | reflexivity|].
           exact IH.
      * rewrite timed_impulse_below by assumption.
        apply (@same_anchor_in_place s); [reflexivity | reflexivity|].
        exact IH.
  - pose proof (reachable_well_formed Hr) as Hwf.
    pose proof (step_anchors (dt s) s (wf_left Hwf) (wf_wall Hwf)) as Ha.
    pose proof (step_controller (dt s) s) as Hc.
    frame_eqs Ha. frame_eqs Hc.
    apply (@same_anchor_in_place s); assumption.
Qed.

Lemma lifted_in_window (l : float) :
  In l lift_values ->
  (200 <=? snd (lifted l anchor_home))%float = true
  /\ (snd (lifted l anchor_home) <=? 300)%float = true.
Proof.
  intros Hl.
  assert (H : forallb
                (fun l => (200 <=? snd (lifted l anchor_home))%float
                          && (snd (lifted l anchor_home) <=? 300)%float)
                lift_values = true) by (vm_compute; reflexivity).
  rewrite forallb_forall in H. apply andb_true_iff. now apply H.
Qed.

(** X9.  In every state of a run the left anchor is on the vertical line
    x = 100 through its base position, at a height between y = 200 and
    y = 300: it is at the base position (100, 300) while the impulse is
    pending, and at most the largest lift, 2 m or 100 pixels, above it once
    the impulse is applied.  No sequence of keys lifts it twice. *)
Theorem left_anchor_stays_in_window (s : App) :
  reachable s ->
  fst (position (left_anchor s)) = 100%float
  /\ (200 <=? snd (position (left_anchor s)))%float = true
  /\ (snd (position (left_anchor s)) <=? 300)%float = true
  /\ (impulse_applied s = false ->
      position (left_anchor s) = (100, 300)%float).
Proof.
  intros Hr. pose proof (reachable_anchor_in_place Hr) as Hin.
  unfold anchor_in_place in Hin.
  destruct (impulse_applied s).
  - destruct Hin as [l [Hl Hpos]]. rewrite Hpos.
    destruct (lifted_in_window Hl) as [H1 H2].
    repeat split; try assumption. discriminate.
  - rewrite Hin. repeat split; vm_compute; reflexivity.
Qed.

Lemma left_anchor_stays_in_window_witness :
  fst (position (left_anchor triggered_app)) = 100%float
  /\ (200 <=? snd (position (left_anchor triggered_app)))%float = true
  /\ (snd (position (left_anchor triggered_app)) <=? 300)%float = true
  /\ (impulse_applied triggered_app = false ->
      position (left_anchor triggered_app) = (100, 300)%float).
Proof.
  apply (left_anchor_stays_in_window reachable_triggered).
Defined.

(** ** The timed impulse comes *)

Lemma undisturbed_event (e : Event) (s : App) :
  resets e = false -> quits e = false ->
  exists s',
    handle_event e s = Ok s'
    /\ running s' = running s
    /\ time_accum s' = time_accum s
    /\ (impulse_applied s = true -> impulse_applied s' = true).
Proof.
  intros Hres Hq.
  assert (Hex : exists s', handle_event e s = Ok s'
                           /\ time_accum s' = time_accum s
                           /\ (impulse_applied s = true ->
                               impulse_applied s' = true)).
  { destruct (manual e) eqn:Hm.
    - destruct e as [|k|]; try discriminate Hm.
      destruct k; try discriminate Hm; try discriminate Hres.
      cbn [handle_event handle_key].
      destruct (impulse_effect s) as [_ [Hia [Hc _]]]. frame_eqs Hc.
      destruct (impulse_applied s) eqn:Ea; cbn [negb].
      + exists s. repeat split. intros _. exact Ea.
      + exists (_apply_first_spring_impulse s).
        split; [reflexivity|]. split; [assumption | auto].
    - destruct (automatic_event e s Hm) as [s' [H [_ [Hi Ht]]]].
      exists s'. repeat split; congruence. }
  destruct Hex as [s' [H [Ht Hi]]]. exists s'.
  repeat split; try assumption.
  rewrite (handle_event_running _ _ H), Hq. apply andb_true_r.
Qed.

Lemma undisturbed_events (events : list Event) (s : App) :
  forallb (fun e => negb (resets e) && negb (quits e)) events = true ->
  exists s',
    _process_events events s = Ok s'
    /\ running s' = running s
    /\ time_accum s' = time_accum s
    /\ (impulse_applied s = true -> impulse_applied s' = true).
Proof.
  revert s. induction events as [|e rest IH]; intros s Hu.
  - exists s. repeat split; auto.
  - cbn [forallb] in Hu. apply andb_true_iff in Hu. destruct Hu as [He Hrest].
    apply andb_true_iff in He. destruct He as [Hres Hq].
    apply negb_true_iff in Hres, Hq.
    destruct (undisturbed_event e s Hres Hq) as [s1 [H1 [Hr1 [Ht1 Hi1]]]].
    destruct (IH s1 Hrest) as [s2 [H2 [Hr2 [Ht2 Hi2]]]].
    exists s2. cbn [_process_events]. rewrite H1. cbn [bind].
    repeat split; try congruence. auto.
Qed.

Lemma elapsed_after_tick_next (s : App) (j : nat) :
  well_formed s -> time_accum s = elapsed j ->
  elapsed_after_tick s = elapsed (S j).
Proof.
  intros Hwf Ht. unfold elapsed_after_tick.
  rewrite Ht, (wf_dt Hwf), (wf_steps Hwf). reflexivity.
Qed.

Lemma trigger_reached_by_301 (t : float) :
  In t time_values -> py_ge (elapsed 301) t = true.
Proof.
  intros Ht.
  assert (H : forallb (py_ge (elapsed 301)) time_values = true)
    by (vm_compute; reflexivity).
  rewrite forallb_forall in H. now apply H.
Qed.

Lemma fires_by_301 (turns : list (list Event)) (s : App) :
  reachable s -> running s = true -> undisturbed turns = true ->
  (impulse_applied s = true
   \/ exists j, time_accum s = elapsed j /\ j <= 300
                /\ 301 <= j + length turns) ->
  exists s', run turns s = Ok s' /\ impulse_applied s' = true.
Proof.
  revert s. induction turns as [|events rest IH]; intros s Hr Hrun Hu Hs.
  - destruct Hs as [Ha | [j [_ [H1 H2]]]]; [|cbn [length] in H2; lia].
    exists s. split; [reflexivity | assumption].
  - cbn [run]. rewrite Hrun.
    unfold undisturbed in Hu. cbn [forallb] in Hu.
    apply andb_true_iff in Hu. destruct Hu as [He Hrest].
    destruct (undisturbed_events events s He) as [s1 [H1 [Hr1 [Ht1 Hi1]]]].
    unfold frame. rewrite H1. cbn [bind].
    assert (Hreach1 : reachable s1)
      by (eapply reachable_process_events; eassumption).
    pose proof (reachable_well_formed Hreach1) as Hwf1.
    assert (Hrun2 : running (tick s1) = true)
      by (rewrite tick_running; congruence).
    apply IH; try assumption; [now apply reachable_tick|].
    destruct (impulse_applied s1) eqn:Ea1.
    + left. now apply tick_applied.
    + destruct Hs as [Ha | [j [Hj [Hle Hlen]]]];
        [pose proof (Hi1 Ha); congruence|].
      destruct (reaches_trigger s1) eqn:Etr.
      * left. now apply tick_fires.
      * right. exists (S j).
        destruct (tick_below Hwf1 Ea1 Etr) as [_ [_ Ht2]].
        assert (Hnext : elapsed_after_tick s1 = elapsed (S j))
          by (apply elapsed_after_tick_next; congruence).
        split; [congruence|].
        assert (Hlt : j <> 300).
        { intros ->. unfold reaches_trigger in Etr. rewrite Hnext in Etr.
          rewrite (trigger_reached_by_301 (wf_time Hwf1)) in Etr.
          discriminate. }
        cbn [length] in Hlen. lia.
Qed.

(** X10.  The timed impulse cannot be put off for good.  From a state with
    the elapsed time at zero and the impulse pending (as after [__init__]
    or a reset), whatever keys are pressed short of a reset or a quit,
    trigger-time keys included, the impulse is applied after 301 turns at
    the latest: the largest trigger time the keys reach is 5.0 s, and 301
    turns of 1/60 s accumulate more than that.  *)
Theorem impulse_applied_within_301_turns (turns : list (list Event))
    (s : App) :
  reachable s -> running s = true -> impulse_applied s = false ->
  time_accum s = 0%float -> undisturbed turns = true ->
  301 <= length turns ->
  exists s', run turns s = Ok s' /\ impulse_applied s' = true.
Proof.
  intros Hr Hrun Hp Ht Hu Hlen.
  apply fires_by_301; try assumption.
  right. exists 0. split; [exact Ht | lia].
Qed.

(** With the trigger time at its maximum, 300 turns are not enough: they
    accumulate 4.999999999999988 s. *)
Lemma impulse_applied_within_301_turns_witness :
  py_ge (elapsed 300) 5.0 = false
  /\ exists s',
       run (repeat [KEYDOWN K_6] 301) initial_app = Ok s'
       /\ impulse_applied s' = true.
Proof.
  split; [vm_compute; reflexivity|].
  apply (impulse_applied_within_301_turns (repeat [KEYDOWN K_6] 301)
           reach_init);
    reflexivity.
Defined.

(** ** What the space holds *)

Lemma impulse_contents (s : App) :
  space (_apply_first_spring_impulse s) = space s
  /\ shapes (_apply_first_spring_impulse s) = shapes s
  /\ wall_shape (_apply_first_spring_impulse s) = wall_shape s.
Proof.
  unfold _apply_first_spring_impulse.
  destruct (position (left_anchor s)) as [x y]. repeat split.
Qed.

Lemma registered_same (s s' : App) :
  space_bodies (space s') = space_bodies (space s) ->
  space_shapes (space s') = space_shapes (space s) ->
  shapes s' = shapes s ->
  wall_shape s' = wall_shape s ->
  registered s -> registered s'.
Proof.
  intros H1 H2 H3 H4. unfold registered. now rewrite H1, H2, H3, H4.
Qed.

Lemma reachable_registered (s : App) : reachable s -> registered s.
Proof.
  induction 1 as [|s e s' Hr IH He|s Hr IH|s Hr IH].
  - repeat split.
  - pose proof (reachable_well_formed Hr) as Hwf.
    destruct e as [|k|]; cbn [handle_event] in He.
    + injection He as <-. exact IH.
    + destruct k; cbn [handle_key] in He;
        try (injection He as <-; exact IH).
      * destruct (toggle_ok s) as [g [_ Hk]].
        cbn [handle_key] in Hk. rewrite Hk in He. injection He as <-.
        exact IH.
      * destruct (impulse_contents s) as [Hsp [Hsh Hw]].
        destruct (negb (impulse_applied s)); injection He as <-;
          [|exact IH].
        apply (@registered_same s); try assumption; now rewrite Hsp.
      * rewrite (reset_ok _ (wf_gravity Hwf)) in He. injection He as <-.
        repeat split.
    + injection He as <-. exact IH.
  - unfold timed_impulse. destruct (negb (impulse_applied s)); [|exact IH].
    match goal with |- registered (if ?c then _ else _) => destruct c end;
      [|exact IH].
    match goal with
    | |- registered (_apply_first_spring_impulse ?a) =>
        destruct (impulse_contents a) as [Hsp [Hsh Hw]]
    end.
    apply (@registered_same s); try assumption; now rewrite Hsp.
  - pose proof (step_space_settings (dt s) s) as Hs.
    pose proof (step_topology (dt s) s) as Ht.
    frame_eqs Hs. frame_eqs Ht.
    apply (@registered_same s); assumption.
Qed.

Lemma NoDup_MassRef (l : list nat) : NoDup l -> NoDup (map MassRef l).
Proof.
  induction 1 as [|i l Hi Hl IH]; cbn [map]; constructor; [|exact IH].
  intros Hin. apply in_map_iff in Hin. destruct Hin as [j [E Hj]].
  injection E as ->. contradiction.
Qed.

(** X11.  In every state of a run the space holds what the instance
    holds: its bodies are the elements of [self.bodies], each once and in
    order, its constraints are [self.springs], its shapes are the wall and
    one circle per mass, and its damping is [self.damping].  The left
    anchor and the static body are never among the bodies added to the
    space. *)
Theorem space_holds_the_chain (s : App) :
  reachable s ->
  space_bodies (space s) = map MassRef (seq 0 (length (bodies s)))
  /\ NoDup (space_bodies (space s))
  /\ ~ In LeftAnchorRef (space_bodies (space s))
  /\ ~ In StaticBodyRef (space_bodies (space s))
  /\ space_constraints (space s) = springs s
  /\ space_shapes (space s) = wall_shape s :: shapes s
  /\ length (shapes s) = length (bodies s)
  /\ space_damping (space s) = damping s.
Proof.
  intros Hr. pose proof (reachable_well_formed Hr) as Hwf.
  destruct (reachable_registered Hr) as [Hb [Hsh [Hs Hw]]].
  rewrite (wf_bodies Hwf), Hb, Hsh, Hs, Hw.
  split; [reflexivity|].
  split; [apply NoDup_MassRef, seq_NoDup|].
  split; [intros H; apply in_map_iff in H; destruct H as [i [E _]];
          discriminate|].
  split; [intros H; apply in_map_iff in H; destruct H as [i [E _]];
          discriminate|].
  split; [now rewrite (wf_constraints Hwf), (wf_springs Hwf)|].
  split; [reflexivity|].
  split; [now rewrite length_map, length_seq|].
  exact (wf_space_damping Hwf).
Qed.

Lemma space_holds_the_chain_witness :
  space_bodies (space triggered_app)
  = map MassRef (seq 0 (length (bodies triggered_app)))
  /\ NoDup (space_bodies (space triggered_app))
  /\ ~ In LeftAnchorRef (space_bodies (space triggered_app))
  /\ ~ In StaticBodyRef (space_bodies (space triggered_app))
  /\ space_constraints (space triggered_app) = springs triggered_app
  /\ space_shapes (space triggered_app)
     = wall_shape triggered_app :: shapes triggered_app
  /\ length (shapes triggered_app) = length (bodies triggered_app)
  /\ space_damping (space triggered_app) = damping triggered_app.
Proof.
  apply (space_holds_the_chain reachable_triggered).
Defined.

(** ** Which way the keys move the parameters *)

Lemma damping_keys_monotone (d : float) :
  In d damping_values ->
  (damping_down d <=? d)%float = true
  /\ (py_min 0.999 d <=? damping_up d)%float = true.
Proof.
  intros Hd.
  assert (H : forallb
                (fun d => (damping_down d <=? d)%float
                          && (py_min 0.999 d <=? damping_up d)%float)
                damping_values = true) by (vm_compute; reflexivity).
  rewrite forallb_forall in H. apply andb_true_iff. now apply H.
Qed.

Lemma lift_keys_monotone (l : float) :
  In l lift_values ->
  (lift_down l <=? l)%float = true /\ (l <=? lift_up l)%float = true.
Proof.
  intros Hl.
  assert (H : forallb
                (fun l => (lift_down l <=? l)%float
                          && (l <=? lift_up l)%float)
                lift_values = true) by (vm_compute; reflexivity).
  rewrite forallb_forall in H. apply andb_true_iff. now apply H.
Qed.

Lemma time_keys_monotone (t : float) :
  In t time_values ->
  (time_down t <=? t)%float = true /\ (t <=? time_up t)%float = true.
Proof.
  intros Ht.
  assert (H : forallb
                (fun t => (time_down t <=? t)%float
                          && (t <=? time_up t)%float)
                time_values = true) by (vm_compute; reflexivity).
  rewrite forallb_forall in H. apply andb_true_iff. now apply H.
Qed.

(** X12.  In every state of a run each parameter key moves its parameter
    the way its comment says, or not at all: keys 1, 3 and 5 never raise the
    damping, the lift and the trigger time, keys 4 and 6 never lower the
    lift and the trigger time, and key 2 never lowers the damping below the
    smaller of its value and the cap 0.999 (from the initial 1.0 it goes
    down to the cap). *)
Theorem parameter_keys_are_monotone (s : App) :
  reachable s ->
  (exists s1 s2,
      handle_event (KEYDOWN K_1) s = Ok s1
      /\ handle_event (KEYDOWN K_2) s = Ok s2
      /\ (damping s1 <=? damping s)%float = true
      /\ (py_min 0.999 (damping s) <=? damping s2)%float = true)
  /\ (exists s3 s4,
        handle_event (KEYDOWN K_3) s = Ok s3
        /\ handle_event (KEYDOWN K_4) s = Ok s4
        /\ (anchor_lift_m s3 <=? anchor_lift_m s)%float = true
        /\ (anchor_lift_m s <=? anchor_lift_m s4)%float = true)
  /\ (exists s5 s6,
        handle_event (KEYDOWN K_5) s = Ok s5
        /\ handle_event (KEYDOWN K_6) s = Ok s6
        /\ (impulse_time_s s5 <=? impulse_time_s s)%float = true
        /\ (impulse_time_s s <=? impulse_time_s s6)%float = true).
Proof.
  intros Hr. pose proof (reachable_well_formed Hr) as Hwf.
  destruct (damping_keys_monotone (wf_damping Hwf)) as [Hd1 Hd2].
  destruct (lift_keys_monotone (wf_lift Hwf)) as [Hl1 Hl2].
  destruct (time_keys_monotone (wf_time Hwf)) as [Ht1 Ht2].
  split; [|split]; eexists; eexists;
    (split; [reflexivity|]); (split; [reflexivity|]); split; assumption.
Qed.

Lemma parameter_keys_are_monotone_witness :
  (py_min 0.999 (damping initial_app) <? damping initial_app)%float = true
  /\ (exists s1 s2,
        handle_event (KEYDOWN K_1) initial_app = Ok s1
        /\ handle_event (KEYDOWN K_2) initial_app = Ok s2
        /\ (damping s1 <=? damping initial_app)%float = true
        /\ (py_min 0.999 (damping initial_app) <=? damping s2)%float = true)
  /\ (exists s3 s4,
        handle_event (KEYDOWN K_3) initial_app = Ok s3
        /\ handle_event (KEYDOWN K_4) initial_app = Ok s4
        /\ (anchor_lift_m s3 <=? anchor_lift_m initial_app)%float = true
        /\ (anchor_lift_m initial_app <=? anchor_lift_m s4)%float = true)
  /\ (exists s5 s6,
        handle_event (KEYDOWN K_5) initial_app = Ok s5
        /\ handle_event (KEYDOWN K_6) initial_app = Ok s6
        /\ (impulse_time_s s5 <=? impulse_time_s initial_app)%float = true
        /\ (impulse_time_s initial_app <=? impulse_time_s s6)%float = true).
Proof.
  split; [vm_compute; reflexivity|].
  apply (parameter_keys_are_monotone reach_init).
Defined.

(** ** Turns in batches *)



